(** * databaseBreaker: the failure gate and the connection bootstrap of cmd/main.go

    The development embeds [DatabaseBreaker] (the closure it returns) and the
    connection part of [main] (lines 71-98) as state-passing functions over
    an explicit world, and concurrent callers of the closure as a small-step
    machine over the statements of lines 45-67.  The transaction that [main]
    runs once it is connected (lines 99-109) is not part of the model.

    Conventions of the embedding:
    - Go's [int] is the 64-bit two's-complement integer and [uint] the
      64-bit unsigned one (their size on 64-bit targets); a [time.Duration]
      is an [int64] count of nanoseconds.  They are carried as [Z] with the
      wrap-around written out ([GoInt]).
    - An instant ([time.Time]) is a [Z] count of nanoseconds; [Add] is
      addition and [After] is [>] on instants.
    - [time.Now] and the wrapped [DatabaseCircuit] are the environment: the
      n-th reading of the clock and the n-th invocation of the factory are
      given by an oracle ([Env]); the world counts how many of each were
      consumed and records what the program did and printed. *)

From Stdlib Require Import ZArith List String Bool Lia PeanoNat.
Import ListNotations.
Local Open Scope Z_scope.

(** ** Go integers *)

Module GoInt.

Definition int_min : Z := - 2 ^ 63.
Definition int_max : Z := 2 ^ 63 - 1.
Definition uint_max : Z := 2 ^ 64 - 1.

(** Reduction of a mathematical integer to the [int]/[int64] it is stored as. *)
Definition wrap (z : Z) : Z := (z + 2 ^ 63) mod 2 ^ 64 - 2 ^ 63.

(** The conversion [int(u)] of a [uint]. *)
Definition int_of_uint (u : Z) : Z := wrap u.

Definition add (x y : Z) : Z := wrap (x + y).
Definition sub (x y : Z) : Z := wrap (x - y).

(** [x << s] on an [int64], for a count [s >= 0] (Go panics on a negative
    count; the gate shifts only under [d >= 0]).  A count of 64 or more
    shifts every bit out. *)
Definition shl (x s : Z) : Z :=
  if 64 <=? s then 0 else wrap (Z.shiftl x s).

Definition in_int (z : Z) : Prop := int_min <= z <= int_max.
Definition in_uint (z : Z) : Prop := 0 <= z <= uint_max.

End GoInt.

(** ** Time *)

Definition Time := Z.
Definition Duration := Z.

Definition Second : Duration := 1000000000.

(** [t.Add(d)] and [t.After(u)]. *)
Definition Time_Add (t : Time) (d : Duration) : Time := t + d.
Definition Time_After (t u : Time) : bool := u <? t.

(** ** Values exchanged with the factory *)

Inductive error : Type :=
| ServiceUnavailable                (* errors.New("service unavailable"), main.go:52 *)
| FactoryFailure (msg : string).    (* whatever the wrapped circuit returned *)

Definition error_Error (e : error) : string :=
  match e with
  | ServiceUnavailable => "service unavailable"
  | FactoryFailure msg => msg
  end.

(** A pointer to a [DataStore]: [None] is nil, [Some h] a live handle. *)
Definition DataStore := option nat.

(** The pair of a [DataStore] pointer and an [error] that a
    [DatabaseCircuit] returns; [err = None] is Go's [err == nil]. *)
Record Result : Type := mkResult { db : DataStore; err : option error }.

Definition failed (r : Result) : bool :=
  match err r with Some _ => true | None => false end.

Inductive Context : Type := Background.

(** ** What the program prints *)

Inductive Line : Type :=
| Connecting                   (* fmt.Println("Connecting....")            main.go:78 *)
| TryingToConnect              (* log.Println("Trying to connect...")      main.go:85 *)
| AttemptError (e : error)     (* fmt.Printf("%s \n", err.Error())         main.go:87 *)
| ConnectivityNotAcquired      (* log.Fatalf("Database connectivity ...")  main.go:83 *)
| DatabaseConnected.           (* log.Println("database connected")        main.go:98 *)

(** The text of a line, without its terminator (["%s \n"] leaves a blank
    before it). *)
Definition render (l : Line) : string :=
  match l with
  | Connecting => "Connecting...."
  | TryingToConnect => "Trying to connect..."
  | AttemptError e => error_Error e ++ " "
  | ConnectivityNotAcquired => "Database connectivity could not be acquired"
  | DatabaseConnected => "database connected"
  end.

(** The observable history of a run, oldest event first. *)
Inductive Event : Type :=
| Invoked (n : nat) (r : Result)     (* the n-th call of the wrapped circuit returned r *)
| Attempted (r : Result)             (* a call of the gate returned r *)
| Spawned (deadline : Time)          (* go func ... ; routineDeadline computed *)
| Ticked (period : Duration) (t : Time)  (* a tick was received, time.Now() read as t *)
| Printed (l : Line)
| Sent (d : DataStore)               (* dbStream <- db *)
| Obtained (d : DataStore)           (* roachdb holds the handle *)
| Exit (status : Z).                 (* os.Exit *)

(** ** The environment and the world *)

Record Env : Type := mkEnv {
  now : nat -> Time;                                   (* n-th reading of time.Now() *)
  dbCircuit : nat -> Context -> string -> Result       (* n-th invocation of the factory *)
}.

(** The variables captured by the closure [DatabaseBreaker] returns. *)
Record GateState : Type := mkGate {
  consecutiveFailures : Z;      (* int *)
  lastAttempt : Time
}.

Record World : Type := mkWorld {
  gate : GateState;
  reads : nat;                  (* clock readings consumed *)
  calls : nat;                  (* factory invocations made *)
  trace : list Event
}.

(** ** A state monad over the world *)

Definition M (A : Type) : Type := World -> A * World.

Definition ret {A} (a : A) : M A := fun w => (a, w).
Definition bind {A B} (c : M A) (k : A -> M B) : M B :=
  fun w => let (a, w') := c w in k a w'.

Declare Scope gate_scope.
Delimit Scope gate_scope with gate.
Notation "x <- c ;; k" := (bind c (fun x => k))
  (at level 61, c at next level, right associativity) : gate_scope.
Notation "c ;; k" := (bind c (fun _ => k))
  (at level 61, right associativity) : gate_scope.
Local Open Scope gate_scope.

Definition emit (e : Event) : M unit :=
  fun w => (tt, mkWorld (gate w) (reads w) (calls w) (trace w ++ [e])).

Definition get_gate : M GateState := fun w => (gate w, w).
Definition put_gate (g : GateState) : M unit :=
  fun w => (tt, mkWorld g (reads w) (calls w) (trace w)).

Section Environment.

Variable E : Env.

(** [time.Now()] *)
Definition time_Now : M Time :=
  fun w => (now E (reads w), mkWorld (gate w) (S (reads w)) (calls w) (trace w)).

(** [dbCircuit(ctx, dbUrl)] *)
Definition invoke (ctx : Context) (dbUrl : string) : M Result :=
  fun w =>
    let r := dbCircuit E (calls w) ctx dbUrl in
    (r, mkWorld (gate w) (reads w) (S (calls w))
                (trace w ++ [Invoked (calls w) r])).

(** *** DatabaseBreaker (main.go:39-69) *)

(** Lines 40-41: the captured variables at creation. *)
Definition DatabaseBreaker : M unit :=
  t <- time_Now ;;
  put_gate (mkGate 0 t).

(** [time.Second * 2 << d] (line 49): [*] and [<<] share a precedence
    level and associate to the left. *)
Definition cooldown (d : Z) : Duration := GoInt.shl (Second * 2) d.

(** Lines 45-54: the admission check under the read lock.  [true] is the
    early return of line 52. *)
Definition gate_check (failureThreshold : Z) : M bool :=
  g <- get_gate ;;
  let d := GoInt.sub (consecutiveFailures g) (GoInt.int_of_uint failureThreshold) in
  if 0 <=? d then
    let shouldRetryAt := Time_Add (lastAttempt g) (cooldown d) in
    t <- time_Now ;;
    ret (negb (Time_After t shouldRetryAt))
  else ret false.

(** Lines 59-67: the update under the write lock. *)
Definition gate_update (r : Result) : M Result :=
  t <- time_Now ;;
  g <- get_gate ;;
  match err r with
  | Some _ =>
      put_gate (mkGate (GoInt.add (consecutiveFailures g) 1) t) ;;
      ret r
  | None =>
      put_gate (mkGate 0 t) ;;
      ret r
  end.

(** The closure returned by [DatabaseBreaker] (lines 44-68). *)
Definition attempt (failureThreshold : Z) (ctx : Context) (dbUrl : string)
  : M Result :=
  closed <- gate_check failureThreshold ;;
  if (closed : bool) then
    let r := mkResult None (Some ServiceUnavailable) in
    emit (Attempted r) ;; ret r
  else
    r0 <- invoke ctx dbUrl ;;
    r <- gate_update r0 ;;
    emit (Attempted r) ;; ret r.

(** *** main (main.go:71-98) *)

(** The constants of [main]: the threshold given to [DatabaseBreaker]
    (line 72), the period of [time.Tick] (line 81) and the span added to
    [time.Now()] for [routineDeadline] (line 80). *)
Record Config : Type := mkConfig {
  failureThreshold : Z;       (* uint *)
  pollInterval : Duration;
  totalDeadline : Duration
}.

Definition main_config : Config :=
  mkConfig 4 (Second * 4) (Second * 32).

Definition database_url : string :=
  "postgresql://root@127.0.0.1:26257/defaultdb?sslmode=disable".

(** How the connection part of [main] ends: [roachdb] holds a handle, the
    process was ended by [log.Fatalf], or the loop is still waiting for
    ticks (the model was given no more of them). *)
Inductive Outcome : Type :=
| Connected (d : DataStore)
| Exited (status : Z)
| Polling.

Variable cfg : Config.

(** Lines 81-93: [for range time.Tick(...)], run for at most [ticks]
    ticks.  The sender blocks on [dbStream] until [main] receives (line
    95), so the send ends the task and hands the value to the caller;
    [close(wait)] and the receive of line 96 only keep [main] from going on
    before the task has left its loop. *)
Fixpoint retry_loop (routineDeadline : Time) (ticks : nat) : M Outcome :=
  match ticks with
  | O => ret Polling
  | S ticks' =>
      t <- time_Now ;;
      emit (Ticked (pollInterval cfg) t) ;;
      if Time_After t routineDeadline then
        emit (Printed ConnectivityNotAcquired) ;;
        emit (Exit 1) ;;
        ret (Exited 1)
      else
        emit (Printed TryingToConnect) ;;
        r <- attempt (failureThreshold cfg) Background database_url ;;
        match err r with
        | Some e =>
            emit (Printed (AttemptError e)) ;;
            retry_loop routineDeadline ticks'
        | None =>
            emit (Sent (db r)) ;;
            emit (Obtained (db r)) ;;
            ret (Connected (db r))
        end
  end.

(** Lines 72-98. *)
Definition bootstrap (ticks : nat) : M Outcome :=
  DatabaseBreaker ;;
  r <- attempt (failureThreshold cfg) Background database_url ;;
  out <- match err r with
         | Some _ =>
             emit (Printed Connecting) ;;
             t <- time_Now ;;
             let routineDeadline := Time_Add t (totalDeadline cfg) in
             emit (Spawned routineDeadline) ;;
             retry_loop routineDeadline ticks
         | None =>
             emit (Obtained (db r)) ;;
             ret (Connected (db r))
         end ;;
  match out with
  | Connected _ => emit (Printed DatabaseConnected) ;; ret out
  | _ => ret out
  end.

End Environment.

Definition main (E : Env) (ticks : nat) : M Outcome :=
  bootstrap E main_config ticks.

(** The world [main] starts in. *)
Definition start : World := mkWorld (mkGate 0 0) 0 0 [].

(** ** Concurrent callers of one gate

    The closure is re-entrant: its captured variables are guarded by a
    [sync.RWMutex].  Here each caller is a program counter over the
    statements of lines 45-67, the lock is part of the shared store, and a
    schedule chooses which caller moves.  [consecutiveFailures++] is a load
    followed by a store, so that it is the lock, not the granularity of the
    model, that keeps an increment whole.  A reader is held back by a
    writer that holds the lock, a writer by any holder. *)

Module Race.

Inductive Pc : Type :=
| L45_RLock | L46_ReadD | L48_Check | L51_RUnlock | L56_RUnlock
| L57_Call | L59_Lock | L61_SetLast | L62_Branch
| L63_Load | L63_Store | L66_Reset | L60_Unlock | Returned.

(** What the environment gives one call: the clock at line 50, what the
    factory returns, the clock at line 61. *)
Record Caller : Type := mkCaller {
  now_check : Time;
  outcome : Result;
  now_update : Time
}.

Record Thread : Type := mkThread {
  pc : Pc;
  d : Z;                 (* local of line 46 *)
  tmp : Z;               (* the value loaded by line 63 *)
  invoked : bool;        (* line 57 was executed *)
  out : Result           (* db, err *)
}.

Record Shared : Type := mkShared {
  failures : Z;          (* consecutiveFailures *)
  last : Time;           (* lastAttempt *)
  readers : nat;         (* holders of the read lock *)
  writer : bool          (* the write lock is held *)
}.

Definition entry : Thread :=
  mkThread L45_RLock 0 0 false (mkResult None None).

Definition goto (p : Pc) (t : Thread) : Thread :=
  mkThread p (d t) (tmp t) (invoked t) (out t).

(** One statement of a caller; [None] when it cannot move (blocked on the
    lock, or returned). *)
Definition step (T : Z) (c : Caller) (t : Thread) (s : Shared)
  : option (Thread * Shared) :=
  match pc t with
  | L45_RLock =>
      if writer s then None
      else Some (goto L46_ReadD t,
                 mkShared (failures s) (last s) (S (readers s)) (writer s))
  | L46_ReadD =>
      Some (mkThread L48_Check
              (GoInt.sub (failures s) (GoInt.int_of_uint T))
              (tmp t) (invoked t) (out t), s)
  | L48_Check =>
      if 0 <=? d t then
        if negb (Time_After (now_check c) (Time_Add (last s) (cooldown (d t))))
        then Some (goto L51_RUnlock t, s)
        else Some (goto L56_RUnlock t, s)
      else Some (goto L56_RUnlock t, s)
  | L51_RUnlock =>
      Some (mkThread Returned (d t) (tmp t) (invoked t)
              (mkResult None (Some ServiceUnavailable)),
            mkShared (failures s) (last s) (pred (readers s)) (writer s))
  | L56_RUnlock =>
      Some (goto L57_Call t,
            mkShared (failures s) (last s) (pred (readers s)) (writer s))
  | L57_Call =>
      Some (mkThread L59_Lock (d t) (tmp t) true (outcome c), s)
  | L59_Lock =>
      if writer s || negb (Nat.eqb (readers s) 0) then None
      else Some (goto L61_SetLast t,
                 mkShared (failures s) (last s) (readers s) true)
  | L61_SetLast =>
      Some (goto L62_Branch t,
            mkShared (failures s) (now_update c) (readers s) (writer s))
  | L62_Branch =>
      if failed (out t) then Some (goto L63_Load t, s)
      else Some (goto L66_Reset t, s)
  | L63_Load =>
      Some (mkThread L63_Store (d t) (failures s) (invoked t) (out t), s)
  | L63_Store =>
      Some (goto L60_Unlock t,
            mkShared (GoInt.add (tmp t) 1) (last s) (readers s) (writer s))
  | L66_Reset =>
      Some (goto L60_Unlock t,
            mkShared 0 (last s) (readers s) (writer s))
  | L60_Unlock =>
      Some (goto Returned t,
            mkShared (failures s) (last s) (readers s) false)
  | Returned => None
  end.

Record Machine : Type := mkMachine {
  shared : Shared;
  threads : list Thread
}.

Fixpoint replace_nth {A} (n : nat) (x : A) (l : list A) : list A :=
  match l, n with
  | [], _ => []
  | _ :: l', O => x :: l'
  | y :: l', S n' => y :: replace_nth n' x l'
  end.

(** The scheduler's choice: the caller [who] makes its next statement.  A
    caller that cannot move (or does not exist) leaves the machine as it
    is. *)
Definition move (T : Z) (env : list Caller) (who : nat) (m : Machine) : Machine :=
  match nth_error env who, nth_error (threads m) who with
  | Some c, Some t =>
      match step T c t (shared m) with
      | Some (t', s') => mkMachine s' (replace_nth who t' (threads m))
      | None => m
      end
  | _, _ => m
  end.

Fixpoint run (T : Z) (env : list Caller) (schedule : list nat) (m : Machine)
  : Machine :=
  match schedule with
  | [] => m
  | who :: rest => run T env rest (move T env who m)
  end.

(** [n] callers entering a gate in state [g]. *)
Definition boot (g : GateState) (n : nat) : Machine :=
  mkMachine (mkShared (consecutiveFailures g) (lastAttempt g) 0 false)
            (repeat entry n).

(** Places of a caller with respect to the lock and to the counter. *)
Definition holds_write (p : Pc) : bool :=
  match p with
  | L61_SetLast | L62_Branch | L63_Load | L63_Store | L66_Reset | L60_Unlock => true
  | _ => false
  end.

Definition holds_read (p : Pc) : bool :=
  match p with
  | L46_ReadD | L48_Check | L51_RUnlock | L56_RUnlock => true
  | _ => false
  end.

(** 1 once the caller has stored its increment, 0 before. *)
Definition counted (t : Thread) : Z :=
  match pc t with
  | L60_Unlock => 1
  | Returned => if invoked t then 1 else 0
  | _ => 0
  end.

(** What is known of a caller at each statement. *)
Definition thread_inv (c : Caller) (s : Shared) (t : Thread) : Prop :=
  match pc t with
  | L45_RLock | L46_ReadD | L48_Check | L56_RUnlock | L57_Call =>
      invoked t = false
  | L51_RUnlock => invoked t = false /\ 0 <= d t
  | L59_Lock | L61_SetLast | L62_Branch | L63_Load | L60_Unlock =>
      invoked t = true /\ out t = outcome c
  | L63_Store => invoked t = true /\ out t = outcome c /\ tmp t = failures s
  | L66_Reset => False
  | Returned => invoked t = false -> 0 <= d t
  end.

Definition b2n (b : bool) : nat := if b then 1 else 0.

(** The lock excludes two writers, counts its readers, and the counter is
    the initial one plus the increments stored so far. *)
Definition machine_inv (c1 c2 : Caller) (cf0 : Z) (m : Machine) : Prop :=
  exists t1 t2,
    threads m = [t1; t2] /\
    thread_inv c1 (shared m) t1 /\ thread_inv c2 (shared m) t2 /\
    writer (shared m) = holds_write (pc t1) || holds_write (pc t2) /\
    holds_write (pc t1) && holds_write (pc t2) = false /\
    readers (shared m) = (b2n (holds_read (pc t1)) + b2n (holds_read (pc t2)))%nat /\
    failures (shared m) = cf0 + counted t1 + counted t2.

End Race.

(** ** Observations used by the statements *)

(** The cooldown in the words of the specification: 2^(d+1) seconds. *)
Definition nominal_cooldown (d : Z) : Z := 2 ^ (d + 1) * Second.

(** The value of the early return of line 52. *)
Definition gate_closed_result : Result := mkResult None (Some ServiceUnavailable).

(** What a call that reaches the factory does to the world, the clock being
    read for the update as reading number [n]. *)
Definition delegated (E : Env) (ctx : Context) (dbUrl : string) (n : nat)
  (w : World) : Result * World :=
  let r := dbCircuit E (calls w) ctx dbUrl in
  let g := gate w in
  (r, mkWorld (mkGate (if failed r then GoInt.add (consecutiveFailures g) 1 else 0)
                      (now E n))
              (S n) (S (calls w))
              ((trace w ++ [Invoked (calls w) r]) ++ [Attempted r])).

(** What a short-circuited call does to the world. *)
Definition rejected (w : World) : Result * World :=
  (gate_closed_result,
   mkWorld (gate w) (S (reads w)) (calls w)
           (trace w ++ [Attempted gate_closed_result])).

(** The signed difference of line 46. *)
Definition excess (T : Z) (g : GateState) : Z :=
  GoInt.sub (consecutiveFailures g) (GoInt.int_of_uint T).

Definition is_failure_line (e : Event) : bool :=
  match e with Printed (AttemptError _) => true | _ => false end.

(** Number of lines printed by line 87. *)
Definition failure_lines (tr : list Event) : nat :=
  List.length (filter is_failure_line tr).

Fixpoint attempts (tr : list Event) : list Result :=
  match tr with
  | [] => []
  | Attempted r :: tr' => r :: attempts tr'
  | _ :: tr' => attempts tr'
  end.

Fixpoint handles (tr : list Event) : list DataStore :=
  match tr with
  | [] => []
  | Obtained h :: tr' => h :: handles tr'
  | _ :: tr' => handles tr'
  end.

(** [n] successive calls of the closure by one caller. *)
Fixpoint successive (E : Env) (T : Z) (n : nat) : M (list Result) :=
  match n with
  | O => ret []
  | S n' =>
      r <- attempt E T Background database_url ;;
      rs <- successive E T n' ;;
      ret (r :: rs)
  end.

(** A factory that fails at every invocation. *)
Definition always_fails (E : Env) : Prop :=
  forall n ctx dbUrl, failed (dbCircuit E n ctx dbUrl) = true.

(** A clock that passes every instant for good. *)
Definition clock_unbounded (E : Env) : Prop :=
  forall t : Time, exists N : nat, forall n : nat, (N <= n)%nat -> t < now E n.

(** The claim "below the threshold every call reaches the factory", for a
    threshold [T]. *)
Definition open_below_threshold (T : Z) : Prop :=
  forall E ctx dbUrl w,
    0 <= consecutiveFailures (gate w) < T ->
    calls (snd (attempt E T ctx dbUrl w)) = S (calls w) /\
    fst (attempt E T ctx dbUrl w) = dbCircuit E (calls w) ctx dbUrl.

(** The claim "at or beyond the threshold a call made before 2^(d+1)
    seconds have passed since the last attempt is rejected without invoking
    the factory", for a threshold [T] and a counter [i]. *)
Definition closed_for_nominal_cooldown (T i : Z) : Prop :=
  forall E ctx dbUrl w,
    consecutiveFailures (gate w) = i ->
    now E (reads w) < lastAttempt (gate w) + nominal_cooldown (i - T) ->
    attempt E T ctx dbUrl w = rejected w.

(** The world after one more reading of the clock, and after more events. *)
Definition tick (w : World) : World :=
  mkWorld (gate w) (S (reads w)) (calls w) (trace w).

Definition log (l : list Event) (w : World) : World :=
  mkWorld (gate w) (reads w) (calls w) (trace w ++ l).

(** In [tr] nobody holds a handle and no call of the gate has succeeded. *)
Definition nothing_handed (tr : list Event) : Prop :=
  handles tr = [] /\ Forall (fun r => failed r = true) (attempts tr).

(** In [tr] the handle [h] is obtained once, after the only successful
    call of the gate has returned, and is the value that call returned. *)
Definition handed_over (tr : list Event) (h : DataStore) : Prop :=
  exists pre r post,
    tr = pre ++ Attempted r :: post /\
    nothing_handed pre /\
    failed r = false /\ db r = h /\
    attempts post = [] /\ handles post = [h].

(** [tr] ends with the fatal exit of line 83, taken at a tick whose reading
    of the clock is after [deadline]. *)
Definition aborted_past (deadline : Time) (tr : list Event) : Prop :=
  exists pre period t,
    tr = pre ++ [Ticked period t; Printed ConnectivityNotAcquired; Exit 1] /\
    deadline < t.

(** The lines printed, in order. *)
Fixpoint printed (tr : list Event) : list Line :=
  match tr with
  | [] => []
  | Printed l :: tr' => l :: printed tr'
  | _ :: tr' => printed tr'
  end.

(** Scenario B in the words of the claim, with [lines] failure lines: given
    at least three ticks, [main] ends holding the handle of the fourth
    factory invocation, after four invocations and [lines] failure lines. *)
Definition scenario_B (E : Env) (cfg : Config) (lines : nat) : Prop :=
  forall ticks, (3 <= ticks)%nat ->
    fst (bootstrap E cfg ticks start)
      = Connected (db (dbCircuit E 3 Background database_url)) /\
    calls (snd (bootstrap E cfg ticks start)) = 4%nat /\
    failure_lines (trace (snd (bootstrap E cfg ticks start))) = lines.

(** *** Sample environments *)

Definition refused : Result :=
  mkResult None (Some (FactoryFailure "connection refused")).

(** The database is down; the clock advances by [pace] per reading. *)
Definition E_down (pace : Duration) : Env :=
  mkEnv (fun n => Z.of_nat n * pace) (fun _ _ _ => refused).

(** The database comes up at invocation [k]. *)
Definition E_up_at (k : nat) (pace : Duration) : Env :=
  mkEnv (fun n => Z.of_nat n * pace)
        (fun n _ _ => if (n <? k)%nat then refused else mkResult (Some n) None).

(** The database is down and every reading of the clock is [t]. *)
Definition E_at (t : Time) : Env := mkEnv (fun _ => t) (fun _ _ _ => refused).

(** A gate that has counted [i] failures, the last one at instant 0. *)
Definition after_failures (i : Z) : World :=
  mkWorld (mkGate i 0) (Z.to_nat i) (Z.to_nat i) [].

(** A caller whose factory invocation is refused. *)
Definition down_caller : Race.Caller :=
  Race.mkCaller Second refused (Second + 1).

(** A schedule for [n] callers: each in turn runs up to the lock of line 59
    (five statements), then each in turn takes the lock and returns (six
    statements).  Every factory invocation is made before any update. *)
Definition enter_all (n : nat) : list nat :=
  flat_map (fun i => repeat i 5) (seq 0 n).

Definition update_all (n : nat) : list nat :=
  flat_map (fun i => repeat i 6) (seq 0 n).

Definition burst (n : nat) : list nat := enter_all n ++ update_all n.

(** ** The rest of main.go *)

(** *** NewDataStore (main.go:22-33)

    [pgx] is outside the repository: what [ParseConfig] and [ConnectConfig]
    return is given by an oracle, the latter by the number of the
    invocation of [NewDataStore] that calls it.  Both return a pointer and
    an error, with nothing assumed about the pointer. *)

Definition Conn := option nat.          (* a pointer to a pgx.Conn *)
Definition ConnConfig := option nat.    (* a pointer to a pgx.ConnConfig *)

Record Pgx : Type := mkPgx {
  ParseConfig : string -> ConnConfig * option error;
  ConnectConfig : nat -> Context -> ConnConfig -> Conn * option error
}.

(** A pointer to a new [DataStore] whose field [Conn] is [c], and the field
    of the [DataStore] a handle points to: the number of the handle keeps
    the field, 0 for a nil connection. *)
Definition DataStore_of (c : Conn) : DataStore :=
  Some (match c with None => O | Some k => S k end).

Definition Conn_of (h : nat) : Conn :=
  match h with O => None | S k => Some k end.

Definition NewDataStore (P : Pgx) (n : nat) (ctx : Context) (dbUrl : string)
  : Result :=
  let (config, err1) := ParseConfig P dbUrl in
  match err1 with
  | Some e => mkResult None (Some e)
  | None =>
      let (conn, err2) := ConnectConfig P n ctx config in
      match err2 with
      | Some e => mkResult None (Some e)
      | None => mkResult (DataStore_of conn) None
      end
  end.

(** The environment of [main] as it is written: the circuit given to
    [DatabaseBreaker] on line 72 is [NewDataStore]. *)
Definition Env_pgx (clock : nat -> Time) (P : Pgx) : Env :=
  mkEnv clock (NewDataStore P).

(** *** The transaction of main (main.go:99-109) *)

(** What [Begin], [Exec] and [Commit] return; a transaction is a [pgx.Tx]
    interface value, [None] the nil one. *)
Record TxApi : Type := mkTxApi {
  Begin : Conn -> Context -> option nat * option error;
  Exec : nat -> Context -> string -> option error;
  Commit : nat -> Context -> option error
}.

Inductive TxLine : Type :=
| CouldNotBegin (e : error)     (* log.Println("Could not begin database transaction ", err) *)
| ErrorCreatingDatabase         (* log.Println("Error creating database") *)
| CouldNotCommit (e : error).   (* log.Fatalf("Could not commit creation of database %s \n", ...) *)

Inductive TxStep : Type :=
| BeginCalled (c : Conn)
| ExecCalled (tx : nat) (sql : string)
| CommitCalled (tx : nat)
| Logged (l : TxLine).

(** How the process ends: [main] returns, [log.Fatalf] exits, a nil
    [roachdb] or a nil transaction is dereferenced, or the retry task is
    still waiting for ticks. *)
Inductive Ending : Type :=
| Returns
| Fatal (status : Z)
| NilDataStore
| NilTx
| StillPolling.

Definition transaction (X : TxApi) (roachdb : DataStore)
  : Ending * list TxStep :=
  match roachdb with
  | None => (NilDataStore, [])
  | Some h =>
      let (tx, err1) := Begin X (Conn_of h) Background in
      match err1 with
      | Some e => (Returns, [BeginCalled (Conn_of h); Logged (CouldNotBegin e)])
      | None =>
          match tx with
          | None => (NilTx, [BeginCalled (Conn_of h)])
          | Some t =>
              match Exec X t Background "CREATE DATABASE subjectives" with
              | Some _ =>
                  (Returns,
                   [BeginCalled (Conn_of h);
                    ExecCalled t "CREATE DATABASE subjectives";
                    Logged ErrorCreatingDatabase])
              | None =>
                  match Commit X t Background with
                  | Some e =>
                      (Fatal 1,
                       [BeginCalled (Conn_of h);
                        ExecCalled t "CREATE DATABASE subjectives";
                        CommitCalled t;
                        Logged (CouldNotCommit e)])
                  | None =>
                      (Returns,
                       [BeginCalled (Conn_of h);
                        ExecCalled t "CREATE DATABASE subjectives";
                        CommitCalled t])
                  end
              end
          end
      end
  end.

(** Lines 72-109: the connection part, then the transaction. *)
Definition program (E : Env) (cfg : Config) (X : TxApi) (ticks : nat)
  : Ending * World * list TxStep :=
  let (out, w) := bootstrap E cfg ticks start in
  match out with
  | Connected h => let (e, steps) := transaction X h in (e, w, steps)
  | Exited st => (Fatal st, w, [])
  | Polling => (StillPolling, w, [])
  end.

(** A circuit that returns a handle whenever it returns no error. *)
Definition returns_handle_or_error (E : Env) : Prop :=
  forall n ctx dbUrl,
    err (dbCircuit E n ctx dbUrl) = None -> db (dbCircuit E n ctx dbUrl) <> None.

(** *** Further observations *)

(** The results of the factory invocations, oldest first. *)
Fixpoint invocations (tr : list Event) : list Result :=
  match tr with
  | [] => []
  | Invoked _ r :: tr' => r :: invocations tr'
  | _ :: tr' => invocations tr'
  end.

(** The number of failures at the head of a list of results, and the
    number of failures since the last success. *)
Fixpoint leading_failures (rs : list Result) : nat :=
  match rs with
  | [] => O
  | r :: rs' => if failed r then S (leading_failures rs') else O
  end.

Definition failures_since_success (rs : list Result) : nat :=
  leading_failures (rev rs).

(** The update of lines 62-66 as a function of the counter, and what a
    returned caller has done to it. *)
Definition update_of (o : Result) (cf : Z) : Z :=
  if failed o then GoInt.add cf 1 else 0.

Definition effect_of (c : Race.Caller) (t : Race.Thread) (cf : Z) : Z :=
  if Race.invoked t then update_of (Race.outcome c) cf else cf.

(** The caller has written the counter. *)
Definition stored (t : Race.Thread) : bool :=
  match Race.pc t with
  | Race.L60_Unlock => true
  | Race.Returned => Race.invoked t
  | _ => false
  end.

(** What is known of a caller at each statement, whatever the factory
    returns. *)
Definition thread_ok (c : Race.Caller) (s : Race.Shared) (t : Race.Thread) : Prop :=
  match Race.pc t with
  | Race.L45_RLock | Race.L46_ReadD | Race.L48_Check
  | Race.L51_RUnlock | Race.L56_RUnlock | Race.L57_Call =>
      Race.invoked t = false
  | Race.L59_Lock | Race.L61_SetLast | Race.L62_Branch | Race.L60_Unlock =>
      Race.invoked t = true /\ Race.out t = Race.outcome c
  | Race.L63_Load =>
      Race.invoked t = true /\ Race.out t = Race.outcome c /\
      failed (Race.outcome c) = true
  | Race.L63_Store =>
      Race.invoked t = true /\ Race.out t = Race.outcome c /\
      failed (Race.outcome c) = true /\ Race.tmp t = Race.failures s
  | Race.L66_Reset =>
      Race.invoked t = true /\ Race.out t = Race.outcome c /\
      failed (Race.outcome c) = false
  | Race.Returned => True
  end.

(** The lock and the counter of two callers: one writer at most and no
    reader beside it, and the counter is the initial one after the updates
    of the callers that have written, in one order or the other. *)
Definition serial_inv (c1 c2 : Race.Caller) (cf0 : Z) (m : Race.Machine) : Prop :=
  exists t1 t2,
    Race.threads m = [t1; t2] /\
    thread_ok c1 (Race.shared m) t1 /\ thread_ok c2 (Race.shared m) t2 /\
    Race.writer (Race.shared m)
      = Race.holds_write (Race.pc t1) || Race.holds_write (Race.pc t2) /\
    Race.holds_write (Race.pc t1) && Race.holds_write (Race.pc t2) = false /\
    Race.holds_write (Race.pc t1) && Race.holds_read (Race.pc t2) = false /\
    Race.holds_read (Race.pc t1) && Race.holds_write (Race.pc t2) = false /\
    Race.readers (Race.shared m)
      = (Race.b2n (Race.holds_read (Race.pc t1))
         + Race.b2n (Race.holds_read (Race.pc t2)))%nat /\
    match stored t1, stored t2 with
    | false, false => Race.failures (Race.shared m) = cf0
    | true, false =>
        Race.failures (Race.shared m) = update_of (Race.outcome c1) cf0
    | false, true =>
        Race.failures (Race.shared m) = update_of (Race.outcome c2) cf0
    | true, true =>
        Race.failures (Race.shared m)
          = update_of (Race.outcome c2) (update_of (Race.outcome c1) cf0) \/
        Race.failures (Race.shared m)
          = update_of (Race.outcome c1) (update_of (Race.outcome c2) cf0)
    end.

(** Every factory invocation made so far has failed. *)
Definition all_failed (E : Env) (w : World) : Prop :=
  forall k, (k < calls w)%nat ->
    failed (dbCircuit E k Background database_url) = true.

(** *** Sample libraries *)

(** A pgx that parses every descriptor and connects at the invocation
    [k], and a transaction interface on which [Begin] and [Exec] succeed
    and [Commit] fails or not. *)
Definition pgx_up_at (k : nat) : Pgx :=
  mkPgx (fun _ => (Some O, None))
        (fun n _ _ => if (n <? k)%nat
                      then (None, Some (FactoryFailure "connection refused"))
                      else (Some n, None)).

Definition pgx_unparsable : Pgx :=
  mkPgx (fun _ => (None, Some (FactoryFailure "cannot parse")))
        (fun n _ _ => (Some n, None)).

Definition tx_commit (fails : bool) : TxApi :=
  mkTxApi (fun _ _ => (Some O, None))
          (fun _ _ _ => None)
          (fun _ _ => if fails then Some (FactoryFailure "commit failed") else None).

Definition tx_no_begin : TxApi :=
  mkTxApi (fun _ _ => (None, Some (FactoryFailure "begin failed")))
          (fun _ _ _ => None)
          (fun _ _ => None).

Definition seconds : nat -> Time := fun n => Z.of_nat n * Second.

(** * Properties *)

(** ** Arithmetic of [int] and of the cooldown *)

Section IntFacts.

Lemma wrap_small z : GoInt.in_int z -> GoInt.wrap z = z.
Proof.
  unfold GoInt.in_int, GoInt.wrap, GoInt.int_min, GoInt.int_max; intros H.
  rewrite Z.mod_small; lia.
Qed.

Lemma wrap_in_int z : GoInt.in_int (GoInt.wrap z).
Proof.
  unfold GoInt.in_int, GoInt.wrap, GoInt.int_min, GoInt.int_max.
  pose proof (Z.mod_pos_bound (z + 2 ^ 63) (2 ^ 64) ltac:(lia)). lia.
Qed.

Lemma add_one_small z :
  GoInt.int_min <= z < GoInt.int_max -> GoInt.add z 1 = z + 1.
Proof.
  intros H. unfold GoInt.add. apply wrap_small.
  unfold GoInt.in_int. lia.
Qed.

Lemma int_of_uint_small T :
  0 <= T <= GoInt.int_max -> GoInt.int_of_uint T = T.
Proof.
  intros H. apply wrap_small. unfold GoInt.in_int, GoInt.int_min. lia.
Qed.

(** The shift is the product reduced to 64 bits, whatever the count. *)
Lemma shl_mod x s : 0 <= s -> GoInt.shl x s = GoInt.wrap (x * 2 ^ s).
Proof.
  intros Hs. unfold GoInt.shl. destruct (64 <=? s) eqn:Hc.
  - apply Z.leb_le in Hc. unfold GoInt.wrap.
    replace s with (64 + (s - 64)) by lia.
    rewrite Z.pow_add_r by lia.
    replace (x * (2 ^ 64 * 2 ^ (s - 64)) + 2 ^ 63)
      with (2 ^ 63 + (x * 2 ^ (s - 64)) * 2 ^ 64) by ring.
    rewrite Z.mod_add by lia. reflexivity.
  - now rewrite Z.shiftl_mul_pow2.
Qed.

Lemma cooldown_wrap d : 0 <= d -> cooldown d = GoInt.wrap (Second * 2 * 2 ^ d).
Proof. intros. unfold cooldown. now apply shl_mod. Qed.

Lemma cooldown_in_int d : GoInt.in_int (cooldown d).
Proof.
  unfold cooldown, GoInt.shl. destruct (64 <=? d).
  - unfold GoInt.in_int, GoInt.int_min, GoInt.int_max. lia.
  - apply wrap_in_int.
Qed.

(** Up to [d = 32] the shift does not overflow: the cooldown is 2^(d+1) s. *)
Lemma cooldown_doubles d :
  0 <= d <= 32 -> cooldown d = nominal_cooldown d.
Proof.
  intros Hd. rewrite cooldown_wrap by lia. unfold nominal_cooldown.
  rewrite Z.pow_add_r by lia.
  assert (H32 : 2 ^ d <= 2 ^ 32) by (apply Z.pow_le_mono_r; lia).
  assert (H0 : 0 < 2 ^ d) by (apply Z.pow_pos_nonneg; lia).
  rewrite wrap_small.
  - unfold Second. change (2 ^ 1) with 2. lia.
  - unfold GoInt.in_int, GoInt.int_min, GoInt.int_max, Second.
    change (2 ^ 32) with 4294967296 in H32.
    change (2 ^ 63) with 9223372036854775808. lia.
Qed.

End IntFacts.

(** ** The gate *)

Section GateFacts.

Variable E : Env.
Variable T : Z.
Variable ctx : Context.
Variable dbUrl : string.

(** The closure, case by case. *)
Lemma attempt_unfold w :
  attempt E T ctx dbUrl w =
    if 0 <=? excess T (gate w) then
      if now E (reads w) <=? lastAttempt (gate w) + cooldown (excess T (gate w))
      then rejected w
      else delegated E ctx dbUrl (S (reads w)) w
    else delegated E ctx dbUrl (reads w) w.
Proof.
  unfold attempt, gate_check, gate_update, invoke, time_Now, get_gate,
    put_gate, emit, bind, ret, excess, rejected, delegated, failed,
    Time_After, Time_Add.
  destruct w as [g n c tr]; cbn [gate reads calls trace].
  destruct (0 <=? _) eqn:Hd; cbn [gate reads calls trace].
  - rewrite Z.ltb_antisym, Bool.negb_involutive.
    destruct (now E n <=? _); cbn [gate reads calls trace]; [reflexivity|].
    destruct (err (dbCircuit E c ctx dbUrl)); reflexivity.
  - destruct (err (dbCircuit E c ctx dbUrl)); reflexivity.
Qed.

(** A call either reaches the factory once or not at all. *)
Lemma attempt_cases w :
  attempt E T ctx dbUrl w = rejected w \/
  exists n, (n = reads w \/ n = S (reads w)) /\
            attempt E T ctx dbUrl w = delegated E ctx dbUrl n w.
Proof.
  rewrite attempt_unfold.
  destruct (0 <=? _); [destruct (_ <=? _)|]; eauto.
Qed.

(** Within the computed cooldown the call is rejected. *)
Lemma rejected_within_cooldown w :
  0 <= excess T (gate w) ->
  now E (reads w) <= lastAttempt (gate w) + cooldown (excess T (gate w)) ->
  attempt E T ctx dbUrl w = rejected w.
Proof.
  intros Hd Hn. rewrite attempt_unfold.
  apply Z.leb_le in Hd, Hn. now rewrite Hd, Hn.
Qed.

(** The subtraction of line 46 is exact for a threshold that [int] holds
    and a counter that is not negative. *)
Lemma excess_exact g :
  0 <= T <= GoInt.int_max ->
  0 <= consecutiveFailures g <= GoInt.int_max ->
  excess T g = consecutiveFailures g - T.
Proof.
  intros HT Hc. unfold excess, GoInt.sub.
  rewrite (int_of_uint_small T) by assumption.
  apply wrap_small. unfold GoInt.in_int, GoInt.int_min, GoInt.int_max in *. lia.
Qed.

(** The exponential cooldown as far as the shift carries it: with
    [d = consecutiveFailures - T] between 0 and 32, a call made before
    2^(d+1) seconds have passed since [lastAttempt] is rejected and the
    factory is not invoked. *)
Lemma rejected_within_nominal_cooldown w :
  0 <= T ->
  consecutiveFailures (gate w) <= GoInt.int_max ->
  0 <= consecutiveFailures (gate w) - T <= 32 ->
  now E (reads w) <= lastAttempt (gate w)
                     + nominal_cooldown (consecutiveFailures (gate w) - T) ->
  attempt E T ctx dbUrl w = rejected w.
Proof.
  intros HT Hc Hd Hn.
  assert (Hx : excess T (gate w) = consecutiveFailures (gate w) - T)
    by (apply excess_exact; lia).
  apply rejected_within_cooldown; rewrite Hx; [lia|].
  now rewrite cooldown_doubles.
Qed.

(** A counter that is not negative stays so, and grows by at most 1. *)
Lemma attempt_counter_range w :
  0 <= consecutiveFailures (gate w) < GoInt.int_max ->
  0 <= consecutiveFailures (gate (snd (attempt E T ctx dbUrl w)))
    <= consecutiveFailures (gate w) + 1.
Proof.
  intros Hc.
  destruct (attempt_cases w) as [Hr | (n & _ & Hd)].
  - rewrite Hr. unfold rejected. cbn [snd gate]. lia.
  - rewrite Hd. unfold delegated. cbn [snd gate consecutiveFailures].
    destruct (failed _); [|lia].
    rewrite add_one_small by (unfold GoInt.int_min; lia). lia.
Qed.

(** Below the threshold the clock is not even read. *)
Lemma delegated_below_threshold w :
  0 <= T <= GoInt.int_max ->
  0 <= consecutiveFailures (gate w) < T ->
  attempt E T ctx dbUrl w = delegated E ctx dbUrl (reads w) w.
Proof.
  intros HT Hc. rewrite attempt_unfold.
  rewrite excess_exact by lia.
  destruct (0 <=? _) eqn:Hd; [apply Z.leb_le in Hd; lia | reflexivity].
Qed.

End GateFacts.

(** On a run of [n] calls from a fresh gate the counter stays between 0
    and [n]: it cannot reach the largest [int] in fewer than 2^63 calls. *)
Lemma successive_counter_range E T n : forall w,
  0 <= consecutiveFailures (gate w) ->
  consecutiveFailures (gate w) + Z.of_nat n <= GoInt.int_max ->
  0 <= consecutiveFailures (gate (snd (successive E T n w)))
    <= consecutiveFailures (gate w) + Z.of_nat n.
Proof.
  induction n as [|n IH]; intros w H0 Hn.
  - cbn. lia.
  - cbn [successive]. unfold bind, ret.
    pose proof (attempt_counter_range E T Background database_url w
                  ltac:(lia)) as Ha.
    destruct (attempt E T Background database_url w) as [r w1].
    cbn [snd] in Ha.
    specialize (IH w1 ltac:(lia) ltac:(lia)).
    destruct (successive E T n w1) as [rs w2]. cbn [snd] in *. lia.
Qed.

(** ** Claims about the gate *)

(** C2. Every call of the gate either reaches the factory once or not at
    all.  When it reaches the factory and the factory succeeds, the counter
    is 0 afterwards, whatever it was, and with a threshold of at least 1 the
    next call reaches the factory whatever the clock says; when the factory
    fails, the counter is the old one incremented by Go's [++], which is
    the old one plus 1 below the largest [int]; when the call is
    short-circuited the counter is what it was. *)
Theorem counter_follows_outcome E T ctx dbUrl w r w' :
  attempt E T ctx dbUrl w = (r, w') ->
  let cf := consecutiveFailures (gate w) in
  let cf' := consecutiveFailures (gate w') in
  (calls w' = calls w \/ calls w' = S (calls w)) /\
  (calls w' = S (calls w) -> r = dbCircuit E (calls w) ctx dbUrl) /\
  (calls w' = S (calls w) -> err r = None ->
     cf' = 0 /\
     (0 < T <= GoInt.int_max ->
      forall E' ctx' dbUrl',
        calls (snd (attempt E' T ctx' dbUrl' w')) = S (calls w'))) /\
  (calls w' = S (calls w) -> err r <> None ->
     cf' = GoInt.add cf 1 /\
     (GoInt.int_min <= cf < GoInt.int_max -> cf' = cf + 1)) /\
  (calls w' = calls w -> cf' = cf).
Proof.
  intros Ha cf cf'.
  destruct (attempt_cases E T ctx dbUrl w) as [Hr | (n & _ & Hd)].
  - rewrite Hr in Ha. injection Ha as <- <-. subst cf cf'. cbn.
    split; [now left|].
    do 3 (split; [intros Hc; exfalso; lia|]). reflexivity.
  - rewrite Hd in Ha. unfold delegated in Ha. injection Ha as <- <-.
    subst cf cf'. cbn [gate reads calls trace consecutiveFailures].
    unfold failed.
    split; [now right|]. split; [reflexivity|].
    split; [|split].
    + intros _ He. rewrite He. split; [reflexivity|].
      intros HT E' ctx' dbUrl'.
      rewrite delegated_below_threshold
        by (cbn [gate consecutiveFailures]; lia).
      reflexivity.
    + intros _ He. destruct (err _); [|congruence].
      split; [reflexivity|]. apply add_one_small.
    + intros Hc. exfalso. lia.
Qed.

Lemma counter_follows_outcome_witness :
  consecutiveFailures (gate (snd (attempt (E_down Second) 4 Background database_url
                                     (after_failures 2)))) = 2 + 1.
Proof.
  pose proof (counter_follows_outcome (E_down Second) 4 Background database_url
                (after_failures 2) _ _ eq_refl) as H.
  destruct H as (_ & _ & _ & H & _).
  destruct H as [_ H]; [reflexivity | discriminate |].
  apply H. unfold GoInt.int_min, GoInt.int_max. cbn. lia.
Defined.

(** C3, amended.  For a threshold that [int] holds (at most 2^63-1), a call
    made while the counter is below the threshold reaches the factory and
    returns what the factory returned, whatever the clock says; hence from
    a fresh gate and with a factory that keeps failing, each of the first
    [n <= T] calls reaches the factory. *)
Theorem below_threshold_reaches_factory T :
  0 <= T <= GoInt.int_max ->
  open_below_threshold T /\
  (forall E n, always_fails E -> Z.of_nat n <= T ->
     forall rs w', bind (DatabaseBreaker E) (fun _ => successive E T n) start = (rs, w') ->
       calls w' = n /\
       rs = map (fun k => dbCircuit E k Background database_url) (seq 0 n) /\
       consecutiveFailures (gate w') = Z.of_nat n).
Proof.
  intros HT. split.
  - intros E ctx dbUrl w Hc.
    rewrite delegated_below_threshold by assumption. split; reflexivity.
  - intros E n Hf Hn rs w'.
    assert (Hgen : forall n w,
      0 <= consecutiveFailures (gate w) ->
      consecutiveFailures (gate w) + Z.of_nat n <= T ->
      forall rs w', successive E T n w = (rs, w') ->
        calls w' = (calls w + n)%nat /\
        rs = map (fun k => dbCircuit E k Background database_url) (seq (calls w) n) /\
        consecutiveFailures (gate w') = consecutiveFailures (gate w) + Z.of_nat n).
    { clear Hn rs w' n. intros n; induction n as [|n IH]; intros w H0 HnT rs w' Hs.
      - cbn in Hs. injection Hs as <- <-. cbn. repeat split; lia.
      - cbn [successive] in Hs. unfold bind in Hs at 1.
        rewrite delegated_below_threshold in Hs by lia.
        unfold delegated in Hs. rewrite Hf in Hs.
        unfold bind, ret in Hs.
        match type of Hs with
        | context [successive E T n ?w1] =>
            destruct (successive E T n w1) as [rs1 w1'] eqn:Hs1;
            apply IH in Hs1; cbn [gate calls consecutiveFailures] in Hs1
        end.
        + injection Hs as <- <-. destruct Hs1 as (Hc & Hr & Hg).
          rewrite add_one_small in Hg by (unfold GoInt.int_min; lia).
          repeat split; [lia | cbn; now rewrite Hr | lia].
        + cbn. rewrite add_one_small by (unfold GoInt.int_min; lia). lia.
        + cbn. rewrite add_one_small by (unfold GoInt.int_min; lia). lia. }
    unfold bind, DatabaseBreaker, time_Now, put_gate, start. cbn.
    intros Hs. apply Hgen in Hs; cbn in *; [|lia|lia].
    destruct Hs as (Hc & Hr & Hg). repeat split; assumption || lia.
Qed.

Lemma below_threshold_reaches_factory_witness :
  open_below_threshold 4 /\
  (forall E n, always_fails E -> Z.of_nat n <= 4 ->
     forall rs w', bind (DatabaseBreaker E) (fun _ => successive E 4 n) start = (rs, w') ->
       calls w' = n /\
       rs = map (fun k => dbCircuit E k Background database_url) (seq 0 n) /\
       consecutiveFailures (gate w') = Z.of_nat n).
Proof.
  apply (below_threshold_reaches_factory 4).
  unfold GoInt.int_max. lia.
Defined.

(** C3 as stated fails for the largest threshold: [int(failureThreshold)]
    is -1, so a fresh gate already has [d = 1] and rejects a first call
    made one second after its creation. *)
Lemma threshold_beyond_int_rejects_first_call :
  GoInt.in_uint GoInt.uint_max /\ ~ open_below_threshold GoInt.uint_max.
Proof.
  split; [vm_compute; split; discriminate|].
  intros H.
  specialize (H (E_down Second) Background database_url
                (snd (DatabaseBreaker (E_down Second) start))).
  destruct H as [H _]; [vm_compute; split; [discriminate | reflexivity]|].
  vm_compute in H. discriminate.
Qed.

(** The effect of a call on [lastAttempt]. *)
Lemma attempt_lastAttempt E T ctx dbUrl w r w' :
  attempt E T ctx dbUrl w = (r, w') ->
  (calls w' = S (calls w) ->
     (reads w < reads w')%nat /\
     lastAttempt (gate w') = now E (pred (reads w'))) /\
  (calls w' = calls w ->
     r = gate_closed_result /\
     lastAttempt (gate w') = lastAttempt (gate w)).
Proof.
  intros Ha.
  destruct (attempt_cases E T ctx dbUrl w) as [Hr | (n & Hn & Hd)].
  - rewrite Hr in Ha. injection Ha as <- <-. cbn. split.
    + intros Hc. exfalso. lia.
    + intros _. split; reflexivity.
  - rewrite Hd in Ha. injection Ha as <- <-. cbn. split.
    + intros _. split; [lia | reflexivity].
    + intros Hc. exfalso. lia.
Qed.

(** C4. A call that reaches the factory leaves [lastAttempt] at the last
    reading of the clock, taken during the call after the factory returned
    (whether it failed or not); a short-circuited call returns the
    "service unavailable" failure and leaves [lastAttempt] as it was. *)
Theorem lastAttempt_follows_delegation E T ctx dbUrl w r w' :
  attempt E T ctx dbUrl w = (r, w') ->
  (calls w' = S (calls w) ->
     (reads w < reads w')%nat /\
     lastAttempt (gate w') = now E (pred (reads w'))) /\
  (calls w' = calls w ->
     r = gate_closed_result /\
     lastAttempt (gate w') = lastAttempt (gate w)).
Proof. apply attempt_lastAttempt. Qed.

Lemma lastAttempt_follows_delegation_witness :
  lastAttempt (gate (snd (attempt (E_down Second) 4 Background database_url
                             (after_failures 2)))) = 2 * Second.
Proof.
  pose proof (lastAttempt_follows_delegation (E_down Second) 4 Background
                database_url (after_failures 2) _ _ eq_refl) as [H _].
  destruct H as [_ H]; [reflexivity|].
  exact H.
Defined.

(** The cooldown holds as far as the shift carries it: for a counter [i]
    with [0 <= i - T <= 32], a call made before 2^((i-T)+1) seconds have
    passed since the last attempt is rejected and the factory is not
    invoked. *)
Lemma closed_within_nominal_cooldown T i :
  0 <= T -> i <= GoInt.int_max -> 0 <= i - T <= 32 ->
  closed_for_nominal_cooldown T i.
Proof.
  intros HT Hi Hd E ctx dbUrl w Hc Hn. subst i.
  apply rejected_within_nominal_cooldown; lia.
Qed.

(** C1 at thirty-three failures beyond the threshold.  With the threshold 4
    of [main] and 37 recorded failures the shift of line 49 overflows to a
    negative duration, and a call made one nanosecond after the last
    attempt invokes the factory, 2^34 seconds before the cooldown of the
    claim has run out. *)
Theorem overflowed_cooldown_lets_through :
  cooldown (37 - 4) < 0 /\
  now (E_at 1) (reads (after_failures 37))
    < lastAttempt (gate (after_failures 37)) + nominal_cooldown (37 - 4) /\
  attempt (E_at 1) 4 Background database_url (after_failures 37)
    = delegated (E_at 1) Background database_url
        (S (reads (after_failures 37))) (after_failures 37) /\
  calls (snd (attempt (E_at 1) 4 Background database_url (after_failures 37)))
    = S (calls (after_failures 37)) /\
  ~ closed_for_nominal_cooldown 4 37.
Proof.
  assert (Hrun : attempt (E_at 1) 4 Background database_url (after_failures 37)
                 = delegated (E_at 1) Background database_url
                     (S (reads (after_failures 37))) (after_failures 37))
    by (vm_compute; reflexivity).
  split; [vm_compute; reflexivity|].
  split; [vm_compute; reflexivity|].
  split; [exact Hrun|].
  split; [rewrite Hrun; reflexivity|].
  intros H.
  specialize (H (E_at 1) Background database_url (after_failures 37) eq_refl).
  rewrite Hrun in H.
  assert (Hc : calls (snd (delegated (E_at 1) Background database_url
                             (S (reads (after_failures 37))) (after_failures 37)))
               = calls (snd (rejected (after_failures 37))))
    by (rewrite H; [reflexivity | vm_compute; reflexivity]).
  vm_compute in Hc. discriminate.
Qed.

(** C9. The cooldown is the 64-bit reduction of 2*10^9 * 2^d.  For every
    [d >= 33] that product exceeds 2^63, the computed cooldown is smaller
    than the nominal 2^(d+1) seconds, and a call made 2^63 nanoseconds
    after the last attempt, before the nominal cooldown has run out,
    reaches the factory; for [d = 33] the computed cooldown is negative and
    for [d = 54] it is 0. *)
Theorem cooldown_wraps_beyond_32 :
  (forall d, 33 <= d ->
     2 ^ 63 < Second * 2 * 2 ^ d /\
     cooldown d = GoInt.wrap (Second * 2 * 2 ^ d) /\
     cooldown d < nominal_cooldown d /\
     forall E T ctx dbUrl w,
       excess T (gate w) = d ->
       now E (reads w) = lastAttempt (gate w) + 2 ^ 63 ->
       now E (reads w) < lastAttempt (gate w) + nominal_cooldown d /\
       attempt E T ctx dbUrl w = delegated E ctx dbUrl (S (reads w)) w) /\
  (exists d, 33 <= d /\ cooldown d < 0) /\
  (exists d, 33 <= d /\ 0 <= cooldown d < 2 * Second).
Proof.
  split; [|split].
  - intros d Hd.
    assert (Hp : 2 ^ 33 <= 2 ^ d) by (apply Z.pow_le_mono_r; lia).
    assert (Hbig : 2 ^ 63 < Second * 2 * 2 ^ d).
    { unfold Second. change (2 ^ 33) with 8589934592 in Hp.
      change (2 ^ 63) with 9223372036854775808. lia. }
    assert (Hnom : nominal_cooldown d = Second * 2 * 2 ^ d).
    { unfold nominal_cooldown. rewrite Z.pow_add_r by lia.
      change (2 ^ 1) with 2. lia. }
    pose proof (cooldown_in_int d) as Hin.
    unfold GoInt.in_int, GoInt.int_max in Hin.
    split; [exact Hbig|]. split; [apply cooldown_wrap; lia|].
    split; [lia|].
    intros E T ctx dbUrl w Hx Hnow. split; [lia|].
    rewrite attempt_unfold, Hx.
    destruct (0 <=? d) eqn:H0; [|apply Z.leb_gt in H0; lia].
    destruct (now E (reads w) <=? _) eqn:Hle;
      [apply Z.leb_le in Hle; lia | reflexivity].
  - exists 33. split; [lia | vm_compute; reflexivity].
  - exists 54. split; [lia | vm_compute; split; discriminate || reflexivity].
Qed.

Lemma cooldown_wraps_beyond_32_witness :
  33 <= 40 /\ cooldown 40 < nominal_cooldown 40.
Proof.
  split; [lia|].
  destruct cooldown_wraps_beyond_32 as [H _].
  destruct (H 40) as (_ & _ & Hlt & _); [lia | exact Hlt].
Defined.

(** ** The connection part of [main] *)

Section TraceFacts.

Lemma attempts_app a b : attempts (a ++ b) = attempts a ++ attempts b.
Proof.
  induction a as [|e a IH]; [reflexivity|].
  destruct e; cbn; rewrite ?IH; reflexivity.
Qed.

Lemma handles_app a b : handles (a ++ b) = handles a ++ handles b.
Proof.
  induction a as [|e a IH]; [reflexivity|].
  destruct e; cbn; rewrite ?IH; reflexivity.
Qed.

Lemma nothing_handed_app a b :
  nothing_handed a -> nothing_handed b -> nothing_handed (a ++ b).
Proof.
  intros [Ha1 Ha2] [Hb1 Hb2]. split.
  - now rewrite handles_app, Ha1, Hb1.
  - rewrite attempts_app. apply Forall_app. now split.
Qed.

Lemma handed_over_after a b h :
  nothing_handed a -> handed_over b h -> handed_over (a ++ b) h.
Proof.
  intros Ha (pre & r & post & -> & Hpre & Hr & Hd & Hp1 & Hp2).
  exists (a ++ pre), r, post. rewrite app_assoc.
  repeat split; auto using nothing_handed_app;
    apply nothing_handed_app; assumption.
Qed.

Lemma handed_over_before a b h :
  handed_over a h -> attempts b = [] -> handles b = [] ->
  handed_over (a ++ b) h.
Proof.
  intros (pre & r & post & -> & Hpre & Hr & Hd & Hp1 & Hp2) Hb1 Hb2.
  exists pre, r, (post ++ b). rewrite <- app_assoc. cbn.
  rewrite attempts_app, handles_app, Hp1, Hp2, Hb1, Hb2.
  repeat split; auto; apply Hpre.
Qed.

Lemma aborted_past_after dl a b :
  aborted_past dl b -> aborted_past dl (a ++ b).
Proof.
  intros (pre & p & t & -> & Ht).
  exists (a ++ pre), p, t. now rewrite app_assoc.
Qed.

End TraceFacts.

Section LoopFacts.

Variable E : Env.
Variable cfg : Config.

Lemma attempt_trace T ctx dbUrl w r w' :
  attempt E T ctx dbUrl w = (r, w') ->
  (reads w <= reads w')%nat /\
  exists pre, trace w' = trace w ++ pre ++ [Attempted r] /\
              attempts pre = [] /\ handles pre = [].
Proof.
  intros Ha.
  destruct (attempt_cases E T ctx dbUrl w) as [Hr | (n & Hn & Hd)].
  - rewrite Hr in Ha. injection Ha as <- <-. cbn. split; [lia|].
    exists []. auto.
  - rewrite Hd in Ha. injection Ha as <- <-. cbn. split; [lia|].
    exists [Invoked (calls w) (dbCircuit E (calls w) ctx dbUrl)].
    rewrite <- app_assoc. auto.
Qed.

Lemma attempt_fails T ctx dbUrl w :
  always_fails E -> failed (fst (attempt E T ctx dbUrl w)) = true.
Proof.
  intros Hf.
  destruct (attempt_cases E T ctx dbUrl w) as [Hr | (n & Hn & Hd)].
  - rewrite Hr. reflexivity.
  - rewrite Hd. apply Hf.
Qed.

(** One turn of the loop of lines 81-93. *)
Lemma retry_loop_step dl ticks w :
  retry_loop E cfg dl (S ticks) w =
    let t := now E (reads w) in
    let w1 := log [Ticked (pollInterval cfg) t] (tick w) in
    if dl <? t then
      (Exited 1, log [Exit 1] (log [Printed ConnectivityNotAcquired] w1))
    else
      let a := attempt E (failureThreshold cfg) Background database_url
                 (log [Printed TryingToConnect] w1) in
      match err (fst a) with
      | Some e => retry_loop E cfg dl ticks (log [Printed (AttemptError e)] (snd a))
      | None =>
          (Connected (db (fst a)),
           log [Obtained (db (fst a))] (log [Sent (db (fst a))] (snd a)))
      end.
Proof.
  cbn [retry_loop]. unfold bind at 1 2. unfold time_Now, emit at 1, Time_After.
  cbn [gate reads calls trace]. cbv zeta.
  fold (tick w).
  destruct (dl <? now E (reads w)); [reflexivity|].
  unfold bind at 1. unfold emit at 1. unfold bind at 1.
  cbn [gate reads calls trace].
  match goal with
  | |- context [attempt E ?T ?c ?u ?w0] =>
      change w0 with (log [Printed TryingToConnect]
                        (log [Ticked (pollInterval cfg) (now E (reads w))] (tick w)));
      destruct (attempt E T c u
                  (log [Printed TryingToConnect]
                     (log [Ticked (pollInterval cfg) (now E (reads w))] (tick w))))
        as [r w3]
  end.
  cbn [fst snd]. destruct (err r); reflexivity.
Qed.

(** What the loop leaves in the trace, by the way it ends. *)
Lemma retry_loop_sound dl ticks : forall w out w',
  retry_loop E cfg dl ticks w = (out, w') ->
  exists tr, trace w' = trace w ++ tr /\
    match out with
    | Connected h => handed_over tr h
    | Exited st => st = 1 /\ nothing_handed tr /\ aborted_past dl tr
    | Polling => nothing_handed tr
    end.
Proof.
  induction ticks as [|ticks IH]; intros w out w' Hl.
  - cbn in Hl. injection Hl as <- <-. exists [].
    rewrite app_nil_r. repeat split; constructor.
  - rewrite retry_loop_step in Hl. cbv zeta in Hl.
    destruct (dl <? now E (reads w)) eqn:Hdl.
    + injection Hl as <- <-. apply Z.ltb_lt in Hdl.
      exists [Ticked (pollInterval cfg) (now E (reads w));
              Printed ConnectivityNotAcquired; Exit 1].
      split; [cbn; now rewrite <- !app_assoc|].
      split; [reflexivity|]. split; [split; [reflexivity | constructor]|].
      exists [], (pollInterval cfg), (now E (reads w)). auto.
    + match type of Hl with
      | context [attempt E ?T ?c ?u ?w0] =>
          destruct (attempt E T c u w0) as [r w3] eqn:Ha
      end.
      apply attempt_trace in Ha. destruct Ha as (_ & pre & Htr & Hp1 & Hp2).
      cbn [fst snd] in Hl. cbn [log tick trace] in Htr.
      destruct (err r) as [e|] eqn:He.
      * apply IH in Hl. destruct Hl as (tr & Htr' & Hout).
        cbn [log trace] in Htr'. rewrite Htr in Htr'.
        exists ([Ticked (pollInterval cfg) (now E (reads w));
                 Printed TryingToConnect]
                ++ (pre ++ [Attempted r]) ++ [Printed (AttemptError e)] ++ tr).
        split; [rewrite Htr'; now rewrite <- !app_assoc|].
        assert (Hpre : nothing_handed
                  ([Ticked (pollInterval cfg) (now E (reads w));
                    Printed TryingToConnect]
                   ++ (pre ++ [Attempted r]) ++ [Printed (AttemptError e)])).
        { split.
          - rewrite !handles_app, Hp2. reflexivity.
          - rewrite !attempts_app, Hp1. cbn. constructor; [|constructor].
            unfold failed. now rewrite He. }
        rewrite !app_assoc. rewrite <- !app_assoc in Hpre.
        rewrite <- (app_assoc _ _ tr).
        rewrite !app_assoc in Hpre. rewrite !app_assoc.
        destruct out.
        -- apply handed_over_after; assumption.
        -- destruct Hout as (Hs & Hn & Hab). repeat split; auto.
           ++ now rewrite handles_app, (proj1 Hpre), (proj1 Hn).
           ++ rewrite attempts_app. apply Forall_app. split; [apply Hpre | apply Hn].
           ++ apply aborted_past_after; assumption.
        -- apply nothing_handed_app; assumption.
      * injection Hl as <- <-. cbn [log trace]. rewrite Htr.
        exists ([Ticked (pollInterval cfg) (now E (reads w));
                 Printed TryingToConnect]
                ++ pre ++ Attempted r :: [Sent (db r); Obtained (db r)]).
        split; [rewrite <- !app_assoc; reflexivity|].
        exists ([Ticked (pollInterval cfg) (now E (reads w));
                 Printed TryingToConnect] ++ pre), r,
               [Sent (db r); Obtained (db r)].
        split; [rewrite <- app_assoc; reflexivity|].
        split; [split; cbn [app handles attempts];
                [exact Hp2 | rewrite Hp1; constructor]|].
        split; [unfold failed; now rewrite He|].
        repeat split; reflexivity.
Qed.

End LoopFacts.

Section BootstrapFacts.

Variable E : Env.
Variable cfg : Config.

(** Lines 72-98, step by step. *)
Lemma bootstrap_unfold ticks w :
  bootstrap E cfg ticks w =
    let w0 := mkWorld (mkGate 0 (now E (reads w))) (S (reads w)) (calls w) (trace w) in
    let a := attempt E (failureThreshold cfg) Background database_url w0 in
    match err (fst a) with
    | Some _ =>
        let w1 := log [Printed Connecting] (snd a) in
        let dl := now E (reads w1) + totalDeadline cfg in
        let l := retry_loop E cfg dl ticks (log [Spawned dl] (tick w1)) in
        match fst l with
        | Connected _ => (fst l, log [Printed DatabaseConnected] (snd l))
        | _ => l
        end
    | None =>
        (Connected (db (fst a)),
         log [Printed DatabaseConnected] (log [Obtained (db (fst a))] (snd a)))
    end.
Proof.
  unfold bootstrap. unfold bind at 1 2. unfold DatabaseBreaker, bind at 1.
  unfold time_Now at 1, put_gate. cbn [gate reads calls trace]. cbv zeta.
  destruct (attempt E (failureThreshold cfg) Background database_url _)
    as [r w1] eqn:Ha.
  cbn [fst snd]. unfold bind at 1.
  destruct (err r).
  - unfold bind at 1 2 3, emit at 1 2, time_Now, Time_Add.
    cbn [gate reads calls trace]. unfold log, tick. cbn [gate reads calls trace].
    destruct (retry_loop E cfg _ ticks _) as [out w2].
    cbn [fst snd]. destruct out; reflexivity.
  - reflexivity.
Qed.

Lemma loop_exits dl N :
  always_fails E ->
  (forall n, (N <= n)%nat -> dl < now E n) ->
  forall ticks w, (N - reads w < ticks)%nat ->
    fst (retry_loop E cfg dl ticks w) = Exited 1.
Proof.
  intros Hf HN. induction ticks as [|ticks IH]; intros w Hw; [lia|].
  rewrite retry_loop_step. cbv zeta.
  destruct (dl <? now E (reads w)) eqn:Hdl; [reflexivity|].
  apply Z.ltb_ge in Hdl.
  assert (Hlt : (reads w < N)%nat).
  { destruct (Nat.lt_ge_cases (reads w) N) as [H|H]; [exact H|].
    specialize (HN _ H). lia. }
  match goal with
  | |- context [attempt E ?T ?c ?u ?w0] =>
      pose proof (attempt_fails E T c u w0 Hf) as Hfail;
      destruct (attempt E T c u w0) as [r w3] eqn:Ha
  end.
  apply attempt_trace in Ha. destruct Ha as (Hr & _).
  cbn [fst snd] in *. unfold failed in Hfail.
  destruct (err r); [|discriminate].
  apply IH. cbn in *. lia.
Qed.

Lemma loop_never_connects dl :
  always_fails E ->
  forall ticks w h, fst (retry_loop E cfg dl ticks w) <> Connected h.
Proof.
  intros Hf. induction ticks as [|ticks IH]; intros w h; [discriminate|].
  rewrite retry_loop_step. cbv zeta.
  destruct (dl <? now E (reads w)); [discriminate|].
  match goal with
  | |- context [attempt E ?T ?c ?u ?w0] =>
      pose proof (attempt_fails E T c u w0 Hf) as Hfail;
      destruct (attempt E T c u w0) as [r w3]
  end.
  cbn [fst snd] in *. unfold failed in Hfail.
  destruct (err r); [apply IH | discriminate].
Qed.

End BootstrapFacts.

(** What a run of [main] leaves in the trace, by the way it ends. *)
Lemma bootstrap_sound E cfg ticks out w' :
  bootstrap E cfg ticks start = (out, w') ->
  match out with
  | Connected h => handed_over (trace w') h
  | _ => nothing_handed (trace w')
  end.
Proof.
  rewrite bootstrap_unfold. cbv zeta. cbn [start reads calls trace].
  destruct (attempt E _ _ _ _) as [r w1] eqn:Ha.
  apply attempt_trace in Ha. destruct Ha as (_ & pre & Htr & Hp1 & Hp2).
  cbn [trace app] in Htr. cbn [fst snd].
  destruct (err r) as [e|] eqn:He.
  - assert (Hpre : nothing_handed
              ((pre ++ [Attempted r]) ++ [Printed Connecting]
               ++ [Spawned (now E (reads (log [Printed Connecting] w1))
                            + totalDeadline cfg)])).
    { split.
      - rewrite !handles_app, Hp2. reflexivity.
      - rewrite !attempts_app, Hp1. cbn. constructor; [|constructor].
        unfold failed. now rewrite He. }
    destruct (retry_loop E cfg _ ticks _) as [o w2] eqn:Hl.
    apply retry_loop_sound in Hl. destruct Hl as (tr & Htr' & Ho).
    cbn [log tick trace] in Htr'. rewrite Htr in Htr'.
    rewrite <- !app_assoc in Htr'. rewrite <- !app_assoc in Hpre.
    cbn [fst snd]. destruct o; intros Hb; injection Hb as <- <-.
    + cbn [log trace]. rewrite Htr'.
      replace (pre ++ [Attempted r] ++ [Printed Connecting] ++
               [Spawned (now E (reads (log [Printed Connecting] w1))
                         + totalDeadline cfg)] ++ tr)
        with ((pre ++ [Attempted r] ++ [Printed Connecting] ++
               [Spawned (now E (reads (log [Printed Connecting] w1))
                         + totalDeadline cfg)]) ++ tr)
        by (now rewrite <- !app_assoc).
      apply handed_over_before; [|reflexivity|reflexivity].
      apply handed_over_after; assumption.
    + rewrite Htr'.
      replace (pre ++ [Attempted r] ++ [Printed Connecting] ++
               [Spawned (now E (reads (log [Printed Connecting] w1))
                         + totalDeadline cfg)] ++ tr)
        with ((pre ++ [Attempted r] ++ [Printed Connecting] ++
               [Spawned (now E (reads (log [Printed Connecting] w1))
                         + totalDeadline cfg)]) ++ tr)
        by (now rewrite <- !app_assoc).
      apply nothing_handed_app; [assumption | apply Ho].
    + rewrite Htr'.
      replace (pre ++ [Attempted r] ++ [Printed Connecting] ++
               [Spawned (now E (reads (log [Printed Connecting] w1))
                         + totalDeadline cfg)] ++ tr)
        with ((pre ++ [Attempted r] ++ [Printed Connecting] ++
               [Spawned (now E (reads (log [Printed Connecting] w1))
                         + totalDeadline cfg)]) ++ tr)
        by (now rewrite <- !app_assoc).
      apply nothing_handed_app; assumption.
  - intros Hb. injection Hb as <- <-. cbn [log trace]. rewrite Htr.
    exists pre, r, [Obtained (db r); Printed DatabaseConnected].
    split; [now rewrite <- !app_assoc|].
    split; [split; [exact Hp2 | rewrite Hp1; constructor]|].
    split; [unfold failed; now rewrite He|].
    repeat split; reflexivity.
Qed.

(** C5. In every run of [main], whatever the clock and the factory do and
    however many ticks arrive: if [main] ends holding a handle, the trace
    splits at the return of one call of the gate that succeeded; before it
    nobody holds a handle and every call of the gate has failed; after it
    no call of the gate is made and the one handle obtained is the value
    that call returned.  If [main] does not end holding a handle, nobody
    ever held one. *)
Theorem handle_follows_one_success E cfg ticks out w' :
  bootstrap E cfg ticks start = (out, w') ->
  match out with
  | Connected h => handed_over (trace w') h
  | _ => nothing_handed (trace w')
  end.
Proof. apply bootstrap_sound. Qed.

Lemma handle_follows_one_success_witness :
  handed_over (trace (snd (main (E_up_at 3 Second) 3 start))) (Some 3%nat).
Proof.
  apply (handle_follows_one_success (E_up_at 3 Second) main_config 3
           (Connected (Some 3%nat)) (snd (main (E_up_at 3 Second) 3 start))).
  vm_compute. reflexivity.
Defined.

(** C6. A tick at which the clock reads later than the deadline ends the
    process: the diagnostic is printed and the exit status is 1.  Whenever
    [main] ends by that exit, the tick that caused it read the clock after
    the deadline computed when the retry task was started (a reading of
    the clock plus the total deadline), so the process does not abort
    while the deadline has not passed.  With a factory that fails at every
    invocation nobody ever holds a handle, and if the clock passes every
    instant then, given enough ticks, [main] ends by that exit. *)
Theorem deadline_aborts E cfg :
  (forall dl ticks w,
     dl < now E (reads w) ->
     retry_loop E cfg dl (S ticks) w
       = (Exited 1,
          log [Exit 1]
            (log [Printed ConnectivityNotAcquired]
               (log [Ticked (pollInterval cfg) (now E (reads w))] (tick w))))) /\
  (forall ticks out w',
     bootstrap E cfg ticks start = (out, w') ->
     forall st, out = Exited st ->
       st = 1 /\
       exists dl k,
         In (Spawned dl) (trace w') /\
         dl = now E k + totalDeadline cfg /\
         aborted_past dl (trace w')) /\
  (always_fails E ->
   forall ticks out w',
     bootstrap E cfg ticks start = (out, w') ->
     nothing_handed (trace w') /\ forall h, out <> Connected h) /\
  (always_fails E -> clock_unbounded E ->
   exists ticks0, forall ticks, (ticks0 <= ticks)%nat ->
     fst (bootstrap E cfg ticks start) = Exited 1).
Proof.
  split; [|split; [|split]].
  - intros dl ticks w Hdl. rewrite retry_loop_step. cbv zeta.
    apply Z.ltb_lt in Hdl. now rewrite Hdl.
  - intros ticks out w' Hb st ->.
    rewrite bootstrap_unfold in Hb. cbv zeta in Hb.
    destruct (attempt E _ _ _ _) as [r w1] eqn:Ha. cbn [fst snd] in Hb.
    destruct (err r); [|discriminate].
    destruct (retry_loop E cfg _ ticks _) as [o w2] eqn:Hl.
    cbn [fst snd] in Hb.
    assert (o = Exited st /\ w2 = w') as [-> ->]
      by (destruct o; inversion Hb; auto).
    apply retry_loop_sound in Hl. destruct Hl as (tr & Htr & Hs & _ & Hab).
    split; [exact Hs|].
    exists (now E (reads (log [Printed Connecting] w1)) + totalDeadline cfg),
           (reads (log [Printed Connecting] w1)).
    rewrite Htr. cbn [log tick trace].
    split; [|split; [reflexivity|]].
    + apply in_or_app. left. apply in_or_app. right. now left.
    + apply aborted_past_after. exact Hab.
  - intros Hf ticks out w' Hb.
    pose proof (bootstrap_sound E cfg ticks out w' Hb) as Hh.
    rewrite bootstrap_unfold in Hb. cbv zeta in Hb.
    pose proof (attempt_fails E (failureThreshold cfg) Background database_url
                  (mkWorld (mkGate 0 (now E (reads start))) (S (reads start))
                     (calls start) (trace start)) Hf) as Hfail.
    destruct (attempt E _ _ _ _) as [r w1] eqn:Ha. cbn [fst snd] in Hb, Hfail.
    unfold failed in Hfail. destruct (err r); [|discriminate].
    destruct (retry_loop E cfg _ ticks _) as [o w2] eqn:Hl.
    cbn [fst snd] in Hb.
    assert (Ho : forall h, o <> Connected h).
    { intros h Hc.
      eapply (loop_never_connects E cfg _ Hf ticks _ h).
      rewrite Hl. exact Hc. }
    assert (o = out /\ w2 = w') as [-> ->]
      by (destruct o; inversion Hb; auto; exfalso; eapply Ho; reflexivity).
    split; [|exact Ho].
    destruct out; [exfalso; eapply Ho; reflexivity | exact Hh | exact Hh].
  - intros Hf Hc.
    pose proof (attempt_fails E (failureThreshold cfg) Background database_url
                  (mkWorld (mkGate 0 (now E (reads start))) (S (reads start))
                     (calls start) (trace start)) Hf) as Hfail.
    destruct (attempt E (failureThreshold cfg) Background database_url
                (mkWorld (mkGate 0 (now E (reads start))) (S (reads start))
                   (calls start) (trace start))) as [r w1] eqn:Ha.
    cbn [fst] in Hfail.
    destruct (Hc (now E (reads (log [Printed Connecting] w1)) + totalDeadline cfg))
      as [N HN].
    exists (S N). intros ticks Ht.
    rewrite bootstrap_unfold. cbv zeta. rewrite Ha. cbn [fst snd].
    unfold failed in Hfail. destruct (err r); [|discriminate].
    pose proof (loop_exits E cfg _ N Hf HN ticks
                  (log [Spawned (now E (reads (log [Printed Connecting] w1))
                                 + totalDeadline cfg)]
                     (tick (log [Printed Connecting] w1)))) as Hx.
    destruct (retry_loop E cfg _ ticks _) as [o w2].
    cbn [fst] in Hx. rewrite Hx by lia. reflexivity.
Qed.

Lemma deadline_aborts_witness :
  exists ticks0, forall ticks, (ticks0 <= ticks)%nat ->
    fst (main (E_down (Second * 2)) ticks start) = Exited 1.
Proof.
  destruct (deadline_aborts (E_down (Second * 2)) main_config) as (_ & _ & _ & H).
  apply H.
  - intros n ctx dbUrl. reflexivity.
  - intros t. exists (Z.to_nat (t + 1)). intros n Hn.
    unfold E_down, now, Second. lia.
Defined.

Section ScenarioFacts.

Variable E : Env.
Variable cfg : Config.

Hypothesis threshold_int : 0 <= failureThreshold cfg <= GoInt.int_max.

(** A call below the threshold whose factory invocation fails. *)
Lemma attempt_below_fails g n c tr e :
  0 <= consecutiveFailures g < failureThreshold cfg ->
  err (dbCircuit E c Background database_url) = Some e ->
  attempt E (failureThreshold cfg) Background database_url (mkWorld g n c tr)
    = (dbCircuit E c Background database_url,
       mkWorld (mkGate (consecutiveFailures g + 1) (now E n)) (S n) (S c)
         (tr ++ [Invoked c (dbCircuit E c Background database_url);
                 Attempted (dbCircuit E c Background database_url)])).
Proof.
  intros Hc He.
  rewrite delegated_below_threshold by assumption.
  unfold delegated, failed. cbn [gate reads calls trace]. rewrite He.
  rewrite add_one_small by (unfold GoInt.int_min, GoInt.int_max in *; lia).
  now rewrite <- app_assoc.
Qed.

(** A call below the threshold whose factory invocation succeeds. *)
Lemma attempt_below_succeeds g n c tr :
  0 <= consecutiveFailures g < failureThreshold cfg ->
  err (dbCircuit E c Background database_url) = None ->
  attempt E (failureThreshold cfg) Background database_url (mkWorld g n c tr)
    = (dbCircuit E c Background database_url,
       mkWorld (mkGate 0 (now E n)) (S n) (S c)
         (tr ++ [Invoked c (dbCircuit E c Background database_url);
                 Attempted (dbCircuit E c Background database_url)])).
Proof.
  intros Hc He.
  rewrite delegated_below_threshold by assumption.
  unfold delegated, failed. cbn [gate reads calls trace]. rewrite He.
  now rewrite <- app_assoc.
Qed.

(** A turn of the loop before the deadline and below the threshold, the
    factory failing. *)
Lemma turn_fails dl ticks g n c tr e :
  now E n <= dl ->
  0 <= consecutiveFailures g < failureThreshold cfg ->
  err (dbCircuit E c Background database_url) = Some e ->
  retry_loop E cfg dl (S ticks) (mkWorld g n c tr)
    = retry_loop E cfg dl ticks
        (mkWorld (mkGate (consecutiveFailures g + 1) (now E (S n)))
           (S (S n)) (S c)
           (tr ++ [Ticked (pollInterval cfg) (now E n);
                   Printed TryingToConnect;
                   Invoked c (dbCircuit E c Background database_url);
                   Attempted (dbCircuit E c Background database_url);
                   Printed (AttemptError e)])).
Proof.
  intros Hdl Hc He. rewrite retry_loop_step. cbv zeta.
  cbn [reads]. apply Z.ltb_ge in Hdl. rewrite Hdl.
  unfold log, tick. cbn [gate reads calls trace].
  rewrite (attempt_below_fails _ _ _ _ e) by assumption.
  cbn [fst snd gate reads calls trace]. rewrite He.
  now rewrite <- !app_assoc.
Qed.

(** A turn of the loop before the deadline and below the threshold, the
    factory succeeding. *)
Lemma turn_succeeds dl ticks g n c tr :
  now E n <= dl ->
  0 <= consecutiveFailures g < failureThreshold cfg ->
  err (dbCircuit E c Background database_url) = None ->
  retry_loop E cfg dl (S ticks) (mkWorld g n c tr)
    = (Connected (db (dbCircuit E c Background database_url)),
       mkWorld (mkGate 0 (now E (S n))) (S (S n)) (S c)
         (tr ++ [Ticked (pollInterval cfg) (now E n);
                 Printed TryingToConnect;
                 Invoked c (dbCircuit E c Background database_url);
                 Attempted (dbCircuit E c Background database_url);
                 Sent (db (dbCircuit E c Background database_url));
                 Obtained (db (dbCircuit E c Background database_url))])).
Proof.
  intros Hdl Hc He. rewrite retry_loop_step. cbv zeta.
  cbn [reads]. apply Z.ltb_ge in Hdl. rewrite Hdl.
  unfold log, tick. cbn [gate reads calls trace].
  rewrite attempt_below_succeeds by assumption.
  cbn [fst snd gate reads calls trace]. rewrite He.
  now rewrite <- !app_assoc.
Qed.

End ScenarioFacts.

(** C7, amended.  With a threshold above 3 that [int] holds (4 in [main]),
    a factory that fails at its first three invocations and succeeds at
    the fourth, and the first three ticks read before the deadline: given
    at least three ticks, [main] ends holding the handle of the fourth
    invocation, and exactly two failure lines are printed, one for each
    failed call of the retry task; the failure of the initial call prints
    only "Connecting....". *)
Theorem three_failures_two_lines E cfg :
  3 < failureThreshold cfg <= GoInt.int_max ->
  (forall n, (n < 3)%nat -> failed (dbCircuit E n Background database_url) = true) ->
  failed (dbCircuit E 3 Background database_url) = false ->
  (forall k, (k = 3 \/ k = 5 \/ k = 7)%nat -> now E k <= now E 2 + totalDeadline cfg) ->
  scenario_B E cfg 2 /\
  exists e1 e2,
    err (dbCircuit E 1 Background database_url) = Some e1 /\
    err (dbCircuit E 2 Background database_url) = Some e2 /\
    forall ticks, (3 <= ticks)%nat ->
      printed (trace (snd (bootstrap E cfg ticks start)))
        = [Connecting; TryingToConnect; AttemptError e1;
           TryingToConnect; AttemptError e2;
           TryingToConnect; DatabaseConnected].
Proof.
  intros HT Hfail Hok Hdl.
  pose proof (Hfail 0%nat ltac:(lia)) as H0.
  pose proof (Hfail 1%nat ltac:(lia)) as H1.
  pose proof (Hfail 2%nat ltac:(lia)) as H2.
  unfold failed in H0, H1, H2, Hok.
  destruct (err (dbCircuit E 0 Background database_url)) as [e0|] eqn:He0;
    [|discriminate].
  destruct (err (dbCircuit E 1 Background database_url)) as [e1|] eqn:He1;
    [|discriminate].
  destruct (err (dbCircuit E 2 Background database_url)) as [e2|] eqn:He2;
    [|discriminate].
  destruct (err (dbCircuit E 3 Background database_url)) as [e3|] eqn:He3;
    [discriminate|].
  assert (HT0 : 0 <= failureThreshold cfg <= GoInt.int_max) by lia.
  assert (Hrun : forall ticks, (3 <= ticks)%nat ->
     fst (bootstrap E cfg ticks start)
       = Connected (db (dbCircuit E 3 Background database_url)) /\
     calls (snd (bootstrap E cfg ticks start)) = 4%nat /\
     failure_lines (trace (snd (bootstrap E cfg ticks start))) = 2%nat /\
     printed (trace (snd (bootstrap E cfg ticks start)))
       = [Connecting; TryingToConnect; AttemptError e1;
          TryingToConnect; AttemptError e2;
          TryingToConnect; DatabaseConnected]).
  { intros ticks Ht.
    destruct ticks as [|[|[|ticks]]]; try lia.
    rewrite bootstrap_unfold. cbv zeta. cbn [start reads calls trace].
    rewrite (attempt_below_fails E cfg HT0 _ _ _ _ e0)
      by first [assumption | cbn [consecutiveFailures]; lia].
    cbn [fst snd]. rewrite He0.
    unfold log, tick. cbn [gate reads calls trace consecutiveFailures app].
    rewrite (turn_fails E cfg HT0 _ _ _ _ _ _ e1)
      by first [assumption | apply Hdl; auto | cbn [consecutiveFailures]; lia].
    cbn [consecutiveFailures].
    rewrite (turn_fails E cfg HT0 _ _ _ _ _ _ e2)
      by first [assumption | apply Hdl; auto | cbn [consecutiveFailures]; lia].
    cbn [consecutiveFailures].
    rewrite (turn_succeeds E cfg HT0)
      by first [assumption | apply Hdl; auto | cbn [consecutiveFailures]; lia].
    cbn [fst snd calls trace].
    split; [reflexivity|]. split; [reflexivity|].
    rewrite <- !app_assoc. cbn [app].
    split; reflexivity. }
  split.
  - intros ticks Ht. destruct (Hrun ticks Ht) as (Ho & Hc & Hl & _). auto.
  - exists e1, e2. split; [reflexivity|]. split; [reflexivity|].
    intros ticks Ht. apply Hrun. exact Ht.
Qed.

Lemma three_failures_two_lines_witness :
  scenario_B (E_up_at 3 Second) main_config 2.
Proof.
  apply (three_failures_two_lines (E_up_at 3 Second) main_config).
  - unfold GoInt.int_max. cbn. lia.
  - intros n Hn. destruct n as [|[|[|n]]]; [reflexivity | reflexivity | reflexivity | lia].
  - reflexivity.
  - intros k [-> | [-> | ->]]; vm_compute; discriminate.
Defined.

(** C7 as stated fails in [main] itself: with the database coming up at the
    fourth invocation the run does not print three failure lines. *)
Lemma three_failures_not_three_lines :
  ~ scenario_B (E_up_at 3 Second) main_config 3.
Proof.
  intros H. destruct (H 3%nat (le_n 3)) as (_ & _ & Hl).
  vm_compute in Hl. discriminate.
Qed.

(** C10. The loop compares the clock with the deadline once per tick, on
    the reading taken when the tick arrives, before it calls the gate.  A
    call of the gate begun at a tick read no later than the deadline that
    succeeds hands its handle to the caller although the clock read for
    its completion (the new [lastAttempt]) is after the deadline; one that
    fails sends the loop on to the next tick. *)
Theorem deadline_checked_before_attempt E cfg dl ticks w :
  let w1 := log [Printed TryingToConnect]
              (log [Ticked (pollInterval cfg) (now E (reads w))] (tick w)) in
  let a := attempt E (failureThreshold cfg) Background database_url w1 in
  now E (reads w) <= dl ->
  (failed (fst a) = false ->
   dl < lastAttempt (gate (snd a)) ->
   lastAttempt (gate (snd a)) = now E (pred (reads (snd a))) /\
   calls (snd a) = S (calls w) /\
   retry_loop E cfg dl (S ticks) w
     = (Connected (db (fst a)),
        log [Obtained (db (fst a))] (log [Sent (db (fst a))] (snd a)))) /\
  (forall e, err (fst a) = Some e ->
   retry_loop E cfg dl (S ticks) w
     = retry_loop E cfg dl ticks (log [Printed (AttemptError e)] (snd a))).
Proof.
  intros w1 a Hdl. apply Z.ltb_ge in Hdl. split.
  - intros Hok _.
    assert (He : err (fst a) = None)
      by (unfold failed in Hok; destruct (err (fst a)); [discriminate | reflexivity]).
    assert (Hcalls : calls (snd a) = S (calls w)).
    { subst a. destruct (attempt_cases E (failureThreshold cfg) Background
                           database_url w1) as [Hr | (n & _ & Hd)].
      - rewrite Hr in He. discriminate.
      - rewrite Hd. reflexivity. }
    split; [|split; [exact Hcalls|]].
    + destruct a as [r w2] eqn:Ha. subst a.
      apply attempt_lastAttempt in Ha. cbn [snd] in *.
      apply Ha. exact Hcalls.
    + rewrite retry_loop_step. cbv zeta. rewrite Hdl.
      fold w1. fold a. now rewrite He.
  - intros e He. rewrite retry_loop_step. cbv zeta. rewrite Hdl.
    fold w1. fold a. now rewrite He.
Qed.

Lemma deadline_checked_before_attempt_witness :
  fst (retry_loop (E_up_at 0 (Second * 10)) main_config (Second * 15) 1
         (mkWorld (mkGate 1 0) 1 1 []))
    = Connected (Some 1%nat).
Proof.
  destruct (deadline_checked_before_attempt (E_up_at 0 (Second * 10)) main_config
              (Second * 15) 0 (mkWorld (mkGate 1 0) 1 1 [])) as [H _].
  - vm_compute. discriminate.
  - destruct H as (_ & _ & H); [reflexivity | vm_compute; reflexivity |].
    rewrite H. reflexivity.
Defined.

(** ** Two callers of one gate *)

Section RaceFacts.

Import Race.

Variable T : Z.
Variables c1 c2 : Caller.
Variable cf0 : Z.

Hypothesis fails1 : failed (outcome c1) = true.
Hypothesis fails2 : failed (outcome c2) = true.
Hypothesis cf0_lo : GoInt.int_min <= cf0.
Hypothesis cf0_hi : cf0 + 2 <= GoInt.int_max.

Ltac race_case :=
  repeat match goal with
         | H : _ /\ _ |- _ => destruct H
         | H : False |- _ => destruct H
         end;
  subst; cbn in *;
  try discriminate;
  repeat match goal with
         | |- context [if ?b then _ else _] =>
             match type of b with bool => destruct b eqn:? end; cbn in *
         | H : context [if ?b then _ else _] |- _ =>
             match type of b with bool => destruct b eqn:? end; cbn in *
         end;
  subst; cbn in *;
  try discriminate;
  try (eexists; eexists; cbn;
       repeat split; cbn; try reflexivity; try assumption; try lia;
       try (intros; discriminate); try (intros; assumption);
       try (rewrite add_one_small
              by (unfold GoInt.int_min, GoInt.int_max; lia); lia)).

Lemma move_inv who m :
  machine_inv c1 c2 cf0 m -> machine_inv c1 c2 cf0 (move T [c1; c2] who m).
Proof.
  intros (t1 & t2 & Hth & H1 & H2 & Hw & Hx & Hr & Hf).
  destruct m as [s ths]. cbn [threads shared] in *. subst ths.
  destruct s as [f l r w].
  destruct t1 as [p1 d1 m1 i1 o1], t2 as [p2 d2 m2 i2 o2].
  unfold thread_inv in H1, H2. cbn [pc d tmp invoked out failures] in *.
  destruct who as [|[|who]]; unfold move; cbn [nth_error threads shared].
  - unfold step; cbn [pc d tmp invoked out failures last readers writer].
    destruct p1, p2; race_case.
  - unfold step; cbn [pc d tmp invoked out failures last readers writer].
    destruct p1, p2; race_case.
  - destruct who; cbn; eexists; eexists; repeat split; cbn; eauto.
Qed.

Lemma run_inv schedule : forall m,
  machine_inv c1 c2 cf0 m -> machine_inv c1 c2 cf0 (run T [c1; c2] schedule m).
Proof.
  induction schedule as [|who rest IH]; intros m Hm; [exact Hm|].
  cbn [run]. apply IH. apply move_inv. exact Hm.
Qed.

Lemma boot_inv g :
  consecutiveFailures g = cf0 -> machine_inv c1 c2 cf0 (boot g 2).
Proof.
  intros Hg. exists entry, entry. unfold boot. cbn.
  repeat split; auto. lia.
Qed.

(** Two returned callers that both saw [d < 0] have both been counted. *)
Lemma both_counted m t1 t2 :
  machine_inv c1 c2 cf0 m ->
  threads m = [t1; t2] ->
  pc t1 = Returned -> pc t2 = Returned -> d t1 < 0 -> d t2 < 0 ->
  failures (shared m) = cf0 + 2 /\
  invoked t1 = true /\ invoked t2 = true /\
  writer (shared m) = false /\ readers (shared m) = 0%nat.
Proof.
  intros (u1 & u2 & Hth & H1 & H2 & Hw & _ & Hr & Hf) Hm Hp1 Hp2 Hd1 Hd2.
  rewrite Hth in Hm. injection Hm as -> ->.
  unfold thread_inv in H1, H2. unfold counted in Hf.
  rewrite Hp1 in *. rewrite Hp2 in *. cbn in Hw, Hr.
  destruct (invoked t1); [|specialize (H1 eq_refl); lia].
  destruct (invoked t2); [|specialize (H2 eq_refl); lia].
  repeat split; auto. lia.
Qed.

End RaceFacts.

(** C8. Two callers enter the gate at any counter that leaves room for two
    increments; the factory fails for both.  Under every schedule of their
    statements, once both have returned having seen [d < 0], both have
    invoked the factory and the counter is exactly 2 above its initial
    value; the lock is free again. *)
Theorem concurrent_failures_both_counted T c1 c2 g schedule t1 t2 :
  failed (Race.outcome c1) = true ->
  failed (Race.outcome c2) = true ->
  GoInt.int_min <= consecutiveFailures g ->
  consecutiveFailures g + 2 <= GoInt.int_max ->
  Race.threads (Race.run T [c1; c2] schedule (Race.boot g 2)) = [t1; t2] ->
  Race.pc t1 = Race.Returned -> Race.pc t2 = Race.Returned ->
  Race.d t1 < 0 -> Race.d t2 < 0 ->
  Race.failures (Race.shared (Race.run T [c1; c2] schedule (Race.boot g 2)))
    = consecutiveFailures g + 2 /\
  Race.invoked t1 = true /\ Race.invoked t2 = true /\
  Race.writer (Race.shared (Race.run T [c1; c2] schedule (Race.boot g 2))) = false /\
  Race.readers (Race.shared (Race.run T [c1; c2] schedule (Race.boot g 2))) = 0%nat.
Proof.
  intros Hf1 Hf2 Hlo Hhi Hth Hp1 Hp2 Hd1 Hd2.
  eapply (both_counted c1 c2 (consecutiveFailures g)); eauto.
  apply run_inv; auto. apply boot_inv; auto.
Qed.

Lemma concurrent_failures_both_counted_witness :
  Race.failures
    (Race.shared (Race.run 4 [down_caller; down_caller] (burst 2)
                    (Race.boot (mkGate 0 0) 2)))
    = 0 + 2.
Proof.
  refine (proj1 (concurrent_failures_both_counted 4 down_caller down_caller
                   (mkGate 0 0) (burst 2)
                   (nth 0 (Race.threads
                             (Race.run 4 [down_caller; down_caller] (burst 2)
                                (Race.boot (mkGate 0 0) 2))) Race.entry)
                   (nth 1 (Race.threads
                             (Race.run 4 [down_caller; down_caller] (burst 2)
                                (Race.boot (mkGate 0 0) 2))) Race.entry)
                   _ _ _ _ _ _ _ _ _));
    vm_compute; try reflexivity; discriminate.
Defined.

(** Under that schedule both factory invocations are in flight together:
    after the first half both callers stand before the write lock, each
    having invoked the factory, and the counter is still untouched. *)
Lemma both_invoked_before_any_update :
  let m := Race.run 4 [down_caller; down_caller] (enter_all 2)
             (Race.boot (mkGate 0 0) 2) in
  map Race.pc (Race.threads m) = [Race.L59_Lock; Race.L59_Lock] /\
  map Race.invoked (Race.threads m) = [true; true] /\
  Race.failures (Race.shared m) = 0.
Proof. vm_compute. repeat split; reflexivity. Qed.

(** Thirty-seven callers let through together at a fresh gate of threshold
    4, all refused, leave the counter at 37, the state from which the
    cooldown of line 49 has overflowed. *)
Lemma burst_reaches_overflow :
  Race.failures
    (Race.shared (Race.run 4 (repeat down_caller 37) (burst 37)
                    (Race.boot (mkGate 0 0) 37)))
    = 37.
Proof. vm_compute. reflexivity. Qed.

(** * Further properties of the code *)

(** ** The gate, one caller *)

Section GateMore.

Lemma invocations_app a b :
  invocations (a ++ b) = invocations a ++ invocations b.
Proof.
  induction a as [|e a IH]; [reflexivity|].
  destruct e; cbn; rewrite ?IH; reflexivity.
Qed.

Lemma wrap_multiple k : GoInt.wrap (k * 2 ^ 64) = 0.
Proof.
  unfold GoInt.wrap.
  replace (k * 2 ^ 64 + 2 ^ 63) with (2 ^ 63 + k * 2 ^ 64) by ring.
  rewrite Z.mod_add by lia. rewrite Z.mod_small by lia. lia.
Qed.

Lemma cooldown_zero d : 54 <= d -> cooldown d = 0.
Proof.
  intros Hd. rewrite cooldown_wrap by lia.
  replace d with (54 + (d - 54)) by lia.
  rewrite Z.pow_add_r by lia.
  replace (Second * 2 * (2 ^ 54 * 2 ^ (d - 54)))
    with ((1953125 * 2 ^ (d - 54)) * 2 ^ 64)
    by (unfold Second; change (2 ^ 64) with (1024 * 2 ^ 54); ring).
  apply wrap_multiple.
Qed.

Lemma int_of_uint_large T :
  2 ^ 63 <= T <= GoInt.uint_max -> GoInt.int_of_uint T = T - 2 ^ 64.
Proof.
  intros HT. unfold GoInt.int_of_uint, GoInt.wrap, GoInt.uint_max in *.
  replace (T + 2 ^ 63) with ((T - 2 ^ 63) + 1 * 2 ^ 64) by lia.
  rewrite Z.mod_add by lia. rewrite Z.mod_small by lia. lia.
Qed.

(** The trace and the counters after a call, by its two cases. *)
Lemma attempt_accounts E T ctx dbUrl w :
  let w' := snd (attempt E T ctx dbUrl w) in
  (calls w' = calls w /\
   invocations (trace w') = invocations (trace w) /\
   gate w' = gate w) \/
  (calls w' = S (calls w) /\
   invocations (trace w')
     = invocations (trace w) ++ [dbCircuit E (calls w) ctx dbUrl] /\
   consecutiveFailures (gate w')
     = update_of (dbCircuit E (calls w) ctx dbUrl) (consecutiveFailures (gate w))).
Proof.
  destruct (attempt_cases E T ctx dbUrl w) as [Hr | (n & _ & Hd)].
  - left. rewrite Hr. cbn. rewrite invocations_app. cbn.
    now rewrite app_nil_r.
  - right. rewrite Hd. cbn. rewrite !invocations_app. cbn.
    rewrite app_nil_r. auto.
Qed.

Lemma failures_since_success_snoc rs r :
  failures_since_success (rs ++ [r])
    = if failed r then S (failures_since_success rs) else O.
Proof.
  unfold failures_since_success. rewrite rev_app_distr. reflexivity.
Qed.

Lemma failures_since_success_le rs :
  (failures_since_success rs <= List.length rs)%nat.
Proof.
  unfold failures_since_success. rewrite <- (length_rev rs).
  induction (rev rs) as [|r l IH]; cbn; [lia|].
  destruct (failed r); lia.
Qed.

End GateMore.

(** X1. With [d = consecutiveFailures - T] between 0 and 32 the gate is
    closed exactly as long as the cooldown of 2^(d+1) seconds: a call whose
    reading of the clock is later than [lastAttempt] plus that cooldown
    reaches the factory, any earlier one is rejected. *)
Theorem gate_reopens_after_cooldown E T ctx dbUrl w :
  0 <= T ->
  consecutiveFailures (gate w) <= GoInt.int_max ->
  0 <= consecutiveFailures (gate w) - T <= 32 ->
  attempt E T ctx dbUrl w =
    if now E (reads w) <=? lastAttempt (gate w)
                           + nominal_cooldown (consecutiveFailures (gate w) - T)
    then rejected w
    else delegated E ctx dbUrl (S (reads w)) w.
Proof.
  intros HT Hc Hd.
  rewrite attempt_unfold, excess_exact by lia.
  rewrite cooldown_doubles by lia.
  destruct (0 <=? _) eqn:H0; [reflexivity | apply Z.leb_gt in H0; lia].
Qed.

Lemma gate_reopens_after_cooldown_witness :
  calls (snd (attempt (E_at (4 * Second + 1)) 4 Background database_url
                (after_failures 5)))
    = S (calls (after_failures 5)).
Proof.
  rewrite (gate_reopens_after_cooldown (E_at (4 * Second + 1)) 4 Background
             database_url (after_failures 5)).
  - reflexivity.
  - lia.
  - unfold GoInt.int_max. cbn. lia.
  - cbn. lia.
Defined.

(** X2. With threshold 0 the gate backs off although nothing has failed: a
    call made within 2 seconds of the creation of the gate is rejected, and
    so is a call made within 2 seconds of a call that succeeded. *)
Theorem threshold_zero_backs_off E ctx dbUrl :
  (forall w0,
     let w := snd (DatabaseBreaker E w0) in
     now E (reads w) <= now E (reads w0) + 2 * Second ->
     attempt E 0 ctx dbUrl w = rejected w) /\
  (forall w r w',
     attempt E 0 ctx dbUrl w = (r, w') ->
     err r = None ->
     forall E' ctx' dbUrl',
       now E' (reads w') <= lastAttempt (gate w') + 2 * Second ->
       attempt E' 0 ctx' dbUrl' w' = rejected w').
Proof.
  assert (Hzero : forall E0 c u w,
            consecutiveFailures (gate w) = 0 ->
            now E0 (reads w) <= lastAttempt (gate w) + 2 * Second ->
            attempt E0 0 c u w = rejected w).
  { intros E0 c u w Hc Hn. apply rejected_within_cooldown.
    - unfold excess. rewrite Hc. vm_compute. discriminate.
    - unfold excess. rewrite Hc.
      change (cooldown (GoInt.sub 0 (GoInt.int_of_uint 0))) with (2 * Second).
      exact Hn. }
  split.
  - intros w0 w Hn. apply Hzero; [reflexivity | exact Hn].
  - intros w r w' Ha He E' ctx' dbUrl' Hn. apply Hzero; [|exact Hn].
    destruct (attempt_cases E 0 ctx dbUrl w) as [Hr | (n & _ & Hd)].
    + rewrite Hr in Ha. injection Ha as <- <-. discriminate.
    + rewrite Hd in Ha. injection Ha as <- <-. cbn.
      unfold failed. now rewrite He.
Qed.

Lemma threshold_zero_backs_off_witness :
  attempt (E_down Second) 0 Background database_url
    (snd (DatabaseBreaker (E_down Second) start))
    = rejected (snd (DatabaseBreaker (E_down Second) start)).
Proof.
  destruct (threshold_zero_backs_off (E_down Second) Background database_url)
    as [H _].
  apply (H start). vm_compute. discriminate.
Defined.

(** The counter follows the factory along any run of one caller. *)
Lemma successive_counts E T n : forall w,
  consecutiveFailures (gate w)
    = Z.of_nat (failures_since_success (invocations (trace w))) ->
  calls w = List.length (invocations (trace w)) ->
  Z.of_nat (calls w) + Z.of_nat n <= GoInt.int_max ->
  let w' := snd (successive E T n w) in
  consecutiveFailures (gate w')
    = Z.of_nat (failures_since_success (invocations (trace w'))) /\
  calls w' = List.length (invocations (trace w')) /\
  (calls w' <= calls w + n)%nat.
Proof.
  induction n as [|n IH]; intros w Hc Hl Hn.
  - cbn. repeat split; auto; lia.
  - cbn [successive]. unfold bind, ret.
    pose proof (attempt_accounts E T Background database_url w) as Ha.
    destruct (attempt E T Background database_url w) as [r w1].
    cbn [snd] in Ha.
    assert (H1 : consecutiveFailures (gate w1)
                 = Z.of_nat (failures_since_success (invocations (trace w1))) /\
                 calls w1 = List.length (invocations (trace w1)) /\
                 (calls w1 <= S (calls w))%nat).
    { destruct Ha as [(Hcalls & Hinv & Hg) | (Hcalls & Hinv & Hg)].
      - rewrite Hinv, Hg, Hcalls. repeat split; auto.
      - rewrite Hinv, Hg, Hcalls, failures_since_success_snoc.
        rewrite length_app. cbn [List.length]. unfold update_of.
        pose proof (failures_since_success_le (invocations (trace w))) as Hle.
        destruct (failed _).
        + rewrite Hc, add_one_small by (unfold GoInt.int_min; lia).
          repeat split; lia.
        + repeat split; lia. }
    destruct H1 as (Hc1 & Hl1 & Hb1).
    specialize (IH w1 Hc1 Hl1 ltac:(lia)).
    destruct (successive E T n w1) as [rs w2]. cbn [snd] in *.
    destruct IH as (Hc2 & Hl2 & Hb2). repeat split; auto; lia.
Qed.

(** X3. Along any run of fewer than 2^63 successive calls from a fresh
    gate, whatever the threshold, the clock and the factory do, the
    counter is the number of factory invocations that have failed since the
    last one that succeeded; calls that were rejected do not count. *)
Theorem counter_counts_failures_since_success E T n rs w' :
  Z.of_nat n <= GoInt.int_max ->
  bind (DatabaseBreaker E) (fun _ => successive E T n) start = (rs, w') ->
  consecutiveFailures (gate w')
    = Z.of_nat (failures_since_success (invocations (trace w'))) /\
  calls w' = List.length (invocations (trace w')) /\
  (calls w' <= n)%nat.
Proof.
  intros Hn Hrun.
  unfold bind, DatabaseBreaker, time_Now, put_gate, start in Hrun.
  cbn in Hrun.
  pose proof (successive_counts E T n
                (mkWorld (mkGate 0 (now E 0)) 1 0 [])
                eq_refl eq_refl ltac:(cbn [calls]; lia)) as H.
  cbv zeta in H. rewrite Hrun in H. cbn [snd calls] in H.
  destruct H as (Hc & Hl & Hb). repeat split; auto.
Qed.

Lemma counter_counts_failures_since_success_witness :
  consecutiveFailures
    (gate (snd (bind (DatabaseBreaker (E_up_at 2 Second))
                  (fun _ => successive (E_up_at 2 Second) 4 5) start)))
    = 0.
Proof.
  destruct (counter_counts_failures_since_success (E_up_at 2 Second) 4 5 _ _
              ltac:(unfold GoInt.int_max; cbn; lia)
              (surjective_pairing
                 (bind (DatabaseBreaker (E_up_at 2 Second))
                    (fun _ => successive (E_up_at 2 Second) 4 5) start)))
    as (H & _).
  rewrite H. vm_compute. reflexivity.
Defined.

(** X4. From 54 failures beyond the threshold on, the computed cooldown is
    0: a call is rejected only if the clock still reads no later than
    [lastAttempt], and every later call reaches the factory. *)
Theorem cooldown_vanishes_from_54 E T ctx dbUrl w :
  0 <= T ->
  consecutiveFailures (gate w) <= GoInt.int_max ->
  54 <= consecutiveFailures (gate w) - T ->
  cooldown (consecutiveFailures (gate w) - T) = 0 /\
  attempt E T ctx dbUrl w =
    if now E (reads w) <=? lastAttempt (gate w)
    then rejected w
    else delegated E ctx dbUrl (S (reads w)) w.
Proof.
  intros HT Hc Hd.
  split; [apply cooldown_zero; exact Hd|].
  rewrite attempt_unfold, excess_exact by lia.
  rewrite cooldown_zero by exact Hd. rewrite Z.add_0_r.
  destruct (0 <=? _) eqn:H0; [reflexivity | apply Z.leb_gt in H0; lia].
Qed.

Lemma cooldown_vanishes_from_54_witness :
  calls (snd (attempt (E_at 1) 4 Background database_url (after_failures 58)))
    = S (calls (after_failures 58)).
Proof.
  destruct (cooldown_vanishes_from_54 (E_at 1) 4 Background database_url
              (after_failures 58)) as [_ H].
  - lia.
  - unfold GoInt.int_max. cbn. lia.
  - cbn. lia.
  - rewrite H. reflexivity.
Defined.

(** X5. A threshold above 2^63 is read as a negative [int]: a gate that has
    counted no failure already has [d = 2^64 - T > 0], and for
    [T >= 2^64 - 32] it rejects every call made within 2^(d+1) seconds of
    [lastAttempt], the instant of its creation for a fresh gate. *)
Theorem threshold_above_int_starts_closed T :
  2 ^ 63 < T <= GoInt.uint_max ->
  (forall g, consecutiveFailures g = 0 -> excess T g = 2 ^ 64 - T) /\
  (2 ^ 64 - 32 <= T ->
   forall E ctx dbUrl w,
     consecutiveFailures (gate w) = 0 ->
     now E (reads w) <= lastAttempt (gate w) + nominal_cooldown (2 ^ 64 - T) ->
     attempt E T ctx dbUrl w = rejected w).
Proof.
  intros HT.
  assert (Hx : forall g, consecutiveFailures g = 0 -> excess T g = 2 ^ 64 - T).
  { intros g Hg. unfold excess, GoInt.sub. rewrite Hg.
    rewrite (int_of_uint_large T) by lia.
    replace (0 - (T - 2 ^ 64)) with (2 ^ 64 - T) by ring.
    apply wrap_small.
    unfold GoInt.in_int, GoInt.int_min, GoInt.int_max, GoInt.uint_max in *. lia. }
  split; [exact Hx|].
  intros H32 E ctx dbUrl w Hc Hn.
  unfold GoInt.uint_max in HT.
  apply rejected_within_cooldown; rewrite (Hx _ Hc); [lia|].
  rewrite cooldown_doubles by lia. exact Hn.
Qed.

Lemma threshold_above_int_starts_closed_witness :
  excess (2 ^ 64 - 3) (mkGate 0 0) = 3.
Proof.
  destruct (threshold_above_int_starts_closed (2 ^ 64 - 3)) as [H _].
  - unfold GoInt.uint_max. lia.
  - rewrite (H (mkGate 0 0) eq_refl). reflexivity.
Defined.

(** ** The connection part of [main], continued *)

Section MainMore.

Variable E : Env.
Variable cfg : Config.

(** What one call of the gate adds to the trace. *)
Lemma attempt_events T w :
  let a := attempt E T Background database_url w in
  attempts (trace (snd a)) = attempts (trace w) ++ [fst a] /\
  filter is_failure_line (trace (snd a)) = filter is_failure_line (trace w) /\
  printed (trace (snd a)) = printed (trace w) /\
  ((calls (snd a) = calls w /\ fst a = gate_closed_result) \/
   (calls (snd a) = S (calls w) /\
    fst a = dbCircuit E (calls w) Background database_url)).
Proof.
  assert (Hp : forall a b, printed (a ++ b) = printed a ++ printed b).
  { induction a as [|e a IH]; intros b; [reflexivity|].
    destruct e; cbn; rewrite ?IH; reflexivity. }
  destruct (attempt_cases E T Background database_url w) as [Hr | (n & _ & Hd)].
  - rewrite Hr. cbn. rewrite attempts_app, filter_app, Hp. cbn.
    rewrite !app_nil_r. repeat split. left. split; reflexivity.
  - rewrite Hd. cbn. rewrite !attempts_app, !filter_app, !Hp. cbn.
    rewrite !app_nil_r. repeat split. right. split; reflexivity.
Qed.

Lemma loop_holds_last_invocation dl ticks : forall w out w',
  all_failed E w ->
  retry_loop E cfg dl ticks w = (out, w') ->
  match out with
  | Connected h =>
      (0 < calls w')%nat /\
      h = db (dbCircuit E (pred (calls w')) Background database_url) /\
      err (dbCircuit E (pred (calls w')) Background database_url) = None /\
      forall k, (k < pred (calls w'))%nat ->
        failed (dbCircuit E k Background database_url) = true
  | _ => all_failed E w'
  end.
Proof.
  induction ticks as [|ticks IH]; intros w out w' Hw Hl.
  - cbn in Hl. injection Hl as <- <-. exact Hw.
  - rewrite retry_loop_step in Hl. cbv zeta in Hl.
    destruct (dl <? now E (reads w)).
    + injection Hl as <- <-. exact Hw.
    + match type of Hl with
      | context [attempt E ?T ?c ?u ?w0] =>
          pose proof (attempt_events T w0) as Ha;
          destruct (attempt E T c u w0) as [r w3]
      end.
      cbv zeta in Ha. cbn [fst snd log tick calls] in Ha, Hl.
      destruct Ha as (_ & _ & _ & Hc).
      destruct (err r) as [e|] eqn:He.
      * apply IH in Hl; [exact Hl|].
        intros k Hk. cbn [log calls] in Hk.
        destruct Hc as [(Hc & _) | (Hc & Hr)].
        -- apply Hw. lia.
        -- rewrite Hc in Hk.
           destruct (Nat.eq_dec k (calls w)) as [-> | Hne].
           ++ rewrite <- Hr. unfold failed. now rewrite He.
           ++ apply Hw. lia.
      * injection Hl as <- <-. cbn [log calls].
        destruct Hc as [(_ & Hr) | (Hc & Hr)].
        -- rewrite Hr in He. discriminate.
        -- rewrite Hc. cbn [pred]. rewrite <- Hr.
           repeat split; auto; lia.
Qed.

(** The loop makes one call of the gate per tick at most, and prints one
    failure line for each call that failed. *)
Lemma loop_accounts dl ticks : forall w,
  let w' := snd (retry_loop E cfg dl ticks w) in
  (calls w' <= calls w + ticks)%nat /\
  (List.length (attempts (trace w'))
     <= List.length (attempts (trace w)) + ticks)%nat /\
  (calls w' + List.length (attempts (trace w))
     <= calls w + List.length (attempts (trace w')))%nat /\
  (failure_lines (trace w') + List.length (filter failed (attempts (trace w)))
   = failure_lines (trace w) + List.length (filter failed (attempts (trace w'))))%nat.
Proof.
  induction ticks as [|ticks IH]; intros w.
  - cbn. repeat split; lia.
  - rewrite retry_loop_step. cbv zeta.
    destruct (dl <? now E (reads w)).
    + cbn. unfold failure_lines. rewrite !attempts_app, !filter_app. cbn.
      rewrite !app_nil_r. repeat split; lia.
    + match goal with
      | |- context [attempt E ?T ?c ?u ?w0] =>
          pose proof (attempt_events T w0) as Ha;
          destruct (attempt E T c u w0) as [r w3]
      end.
      cbv zeta in Ha. cbn [fst snd log tick calls trace] in Ha |- *.
      destruct Ha as (Hat & Hfl & _ & Hc).
      assert (Hat0 : attempts ((trace w ++ [Ticked (pollInterval cfg) (now E (reads w))])
                               ++ [Printed TryingToConnect]) = attempts (trace w))
        by (rewrite !attempts_app; cbn; now rewrite !app_nil_r).
      assert (Hfl0 : filter is_failure_line
                       ((trace w ++ [Ticked (pollInterval cfg) (now E (reads w))])
                        ++ [Printed TryingToConnect])
                     = filter is_failure_line (trace w))
        by (rewrite !filter_app; cbn; now rewrite !app_nil_r).
      rewrite Hat0 in Hat. rewrite Hfl0 in Hfl.
      assert (Hcalls : (calls w3 <= S (calls w))%nat)
        by (destruct Hc as [(Hc & _) | (Hc & _)]; lia).
      destruct (err r) as [e|] eqn:He.
      * specialize (IH (log [Printed (AttemptError e)] w3)).
        cbv zeta in IH.
        destruct (retry_loop E cfg dl ticks _) as [o w4]. cbn [snd] in *.
        cbn [log calls trace] in IH.
        unfold failure_lines in *.
        assert (Hat1 : attempts (trace w3 ++ [Printed (AttemptError e)])
                       = attempts (trace w3))
          by (rewrite attempts_app; cbn; now rewrite app_nil_r).
        assert (Hfl1 : filter is_failure_line (trace w3 ++ [Printed (AttemptError e)])
                       = filter is_failure_line (trace w3) ++ [Printed (AttemptError e)])
          by (now rewrite filter_app).
        assert (Hff : List.length (filter failed (attempts (trace w) ++ [r]))
                      = S (List.length (filter failed (attempts (trace w)))))
          by (rewrite filter_app, length_app; cbn [filter]; unfold failed at 2;
              rewrite He; cbn [List.length]; lia).
        rewrite Hat1, Hfl1, Hat, Hfl, Hff in IH. rewrite !length_app in IH.
        cbn [List.length] in IH.
        destruct IH as (I1 & I2 & I3 & I4). repeat split; lia.
      * cbn [snd log calls trace]. unfold failure_lines.
        assert (Hat1 : attempts ((trace w3 ++ [Sent (db r)]) ++ [Obtained (db r)])
                       = attempts (trace w3))
          by (rewrite !attempts_app; cbn; now rewrite !app_nil_r).
        assert (Hfl1 : filter is_failure_line
                         ((trace w3 ++ [Sent (db r)]) ++ [Obtained (db r)])
                       = filter is_failure_line (trace w3))
          by (rewrite !filter_app; cbn; now rewrite !app_nil_r).
        assert (Hff : List.length (filter failed (attempts (trace w) ++ [r]))
                      = List.length (filter failed (attempts (trace w))))
          by (rewrite filter_app, length_app; cbn [filter]; unfold failed at 2;
              rewrite He; cbn [List.length]; lia).
        rewrite Hat1, Hfl1, Hat, Hfl, Hff. rewrite !length_app.
        cbn [List.length]. repeat split; lia.
Qed.

End MainMore.

(** The handle [main] ends with is the last thing the factory returned. *)
Lemma bootstrap_holds_last_invocation E cfg ticks h w' :
  bootstrap E cfg ticks start = (Connected h, w') ->
  (0 < calls w')%nat /\
  h = db (dbCircuit E (pred (calls w')) Background database_url) /\
  err (dbCircuit E (pred (calls w')) Background database_url) = None /\
  forall k, (k < pred (calls w'))%nat ->
    failed (dbCircuit E k Background database_url) = true.
Proof.
  rewrite bootstrap_unfold. cbv zeta. cbn [start reads calls trace].
  match goal with
  | |- context [attempt E ?T ?c ?u ?w0] =>
      pose proof (attempt_events E T w0) as Ha;
      destruct (attempt E T c u w0) as [r w1]
  end.
  cbv zeta in Ha. cbn [fst snd calls] in Ha |- *.
  destruct Ha as (_ & _ & _ & Hc).
  destruct (err r) as [e|] eqn:He.
  - destruct (retry_loop E cfg _ ticks _) as [o w2] eqn:Hl.
    cbn [fst snd]. intros Hb.
    assert (o = Connected h /\ calls w2 = calls w')
      as [-> Hcalls] by (destruct o; inversion Hb; subst; auto).
    apply loop_holds_last_invocation in Hl.
    + rewrite <- Hcalls. exact Hl.
    + intros k Hk. cbn [log tick calls] in Hk.
      destruct Hc as [(Hc & _) | (Hc & Hr)]; [lia|].
      assert (k = 0%nat) as -> by lia.
      rewrite <- Hr. unfold failed. now rewrite He.
  - intros Hb. injection Hb as <- <-. cbn [log calls].
    destruct Hc as [(_ & Hr) | (Hc & Hr)].
    + rewrite Hr in He. discriminate.
    + rewrite Hc. cbn [pred]. rewrite <- Hr.
      repeat split; auto; lia.
Qed.

(** X6. When [main] ends holding a handle, the handle is the one returned
    by the last factory invocation, that invocation returned no error, and
    every invocation before it failed: the gate and the retry task hand on
    what the factory returned and stop at its first success. *)
Theorem connected_holds_last_invocation E cfg ticks h w' :
  bootstrap E cfg ticks start = (Connected h, w') ->
  (0 < calls w')%nat /\
  h = db (dbCircuit E (pred (calls w')) Background database_url) /\
  err (dbCircuit E (pred (calls w')) Background database_url) = None /\
  forall k, (k < pred (calls w'))%nat ->
    failed (dbCircuit E k Background database_url) = true.
Proof. apply bootstrap_holds_last_invocation. Qed.

Lemma connected_holds_last_invocation_witness :
  db (dbCircuit (E_up_at 3 Second) 3 Background database_url) = Some 3%nat.
Proof.
  destruct (connected_holds_last_invocation (E_up_at 3 Second) main_config 3
              (Some 3%nat) (snd (main (E_up_at 3 Second) 3 start)))
    as (_ & H & _).
  - vm_compute. reflexivity.
  - symmetry. exact H.
Defined.

(** X7. A run of [main] that was given [ticks] ticks has called the gate at
    most [ticks + 1] times, and has invoked the factory at most once per
    call of the gate. *)
Theorem one_call_per_tick E cfg ticks :
  let w' := snd (bootstrap E cfg ticks start) in
  (List.length (attempts (trace w')) <= S ticks)%nat /\
  (calls w' <= List.length (attempts (trace w')))%nat.
Proof.
  rewrite bootstrap_unfold. cbv zeta. cbn [start reads calls trace].
  match goal with
  | |- context [attempt E ?T ?c ?u ?w0] =>
      pose proof (attempt_events E T w0) as Ha;
      destruct (attempt E T c u w0) as [r w1]
  end.
  cbv zeta in Ha. cbn [fst snd calls trace attempts app] in Ha |- *.
  destruct Ha as (Hat & _ & _ & Hc).
  assert (Hcalls : (calls w1 <= 1)%nat)
    by (destruct Hc as [(Hc & _) | (Hc & _)]; lia).
  destruct (err r).
  - pose proof (loop_accounts E cfg
                  (now E (reads (log [Printed Connecting] w1)) + totalDeadline cfg)
                  ticks
                  (log [Spawned (now E (reads (log [Printed Connecting] w1))
                                 + totalDeadline cfg)]
                     (tick (log [Printed Connecting] w1)))) as Hl.
    cbv zeta in Hl.
    destruct (retry_loop E cfg _ ticks _) as [o w2].
    cbn [fst snd log tick calls trace] in Hl |- *.
    rewrite !attempts_app in Hl. cbn [attempts] in Hl.
    rewrite !app_nil_r, Hat in Hl. cbn [List.length] in Hl.
    destruct Hl as (_ & L2 & L3 & _).
    destruct o; cbn [snd log trace calls];
      rewrite ?attempts_app; cbn [attempts]; rewrite ?app_nil_r; lia.
  - cbn [snd log trace calls]. rewrite !attempts_app. cbn [attempts].
    rewrite !app_nil_r, Hat. cbn [List.length]. lia.
Qed.

(** X8. In every run of [main] the number of failure lines printed is the
    number of failed calls of the gate less one: each failed call of the
    retry task prints one line, be it a failure of the factory or the
    "service unavailable" of a closed gate, and the failure of the initial
    call prints none. *)
Theorem failure_lines_count E cfg ticks :
  let w' := snd (bootstrap E cfg ticks start) in
  failure_lines (trace w')
    = pred (List.length (filter failed (attempts (trace w')))).
Proof.
  rewrite bootstrap_unfold. cbv zeta. cbn [start reads calls trace].
  match goal with
  | |- context [attempt E ?T ?c ?u ?w0] =>
      pose proof (attempt_events E T w0) as Ha;
      destruct (attempt E T c u w0) as [r w1]
  end.
  cbv zeta in Ha. cbn [fst snd calls trace attempts filter app] in Ha |- *.
  destruct Ha as (Hat & Hfl & _ & _).
  destruct (err r) as [e|] eqn:He.
  - pose proof (loop_accounts E cfg
                  (now E (reads (log [Printed Connecting] w1)) + totalDeadline cfg)
                  ticks
                  (log [Spawned (now E (reads (log [Printed Connecting] w1))
                                 + totalDeadline cfg)]
                     (tick (log [Printed Connecting] w1)))) as Hl.
    cbv zeta in Hl.
    destruct (retry_loop E cfg _ ticks _) as [o w2].
    cbn [fst snd log tick calls trace] in Hl |- *.
    destruct Hl as (_ & _ & _ & L4). unfold failure_lines in *.
    assert (Hat1 : attempts ((trace w1 ++ [Printed Connecting])
                             ++ [Spawned (now E (reads w1) + totalDeadline cfg)])
                   = [r])
      by (rewrite !attempts_app; cbn; now rewrite !app_nil_r, Hat).
    assert (Hfl1 : filter is_failure_line
                     ((trace w1 ++ [Printed Connecting])
                      ++ [Spawned (now E (reads w1) + totalDeadline cfg)])
                   = [])
      by (rewrite !filter_app; cbn; now rewrite !app_nil_r, Hfl).
    cbn [log reads] in L4. rewrite Hat1, Hfl1 in L4.
    cbn [filter] in L4. unfold failed at 1 in L4. rewrite He in L4.
    cbn [List.length] in L4.
    destruct o; cbn [snd log trace];
      rewrite ?attempts_app, ?filter_app; cbn [attempts filter is_failure_line];
      rewrite ?app_nil_r; lia.
  - cbn [snd log trace]. unfold failure_lines.
    rewrite !attempts_app, !filter_app. cbn [attempts filter is_failure_line].
    rewrite !app_nil_r, Hat, Hfl. cbn [filter]. unfold failed. rewrite He.
    reflexivity.
Qed.

(** X9. When the initial call succeeds, with a threshold of at least 1 that
    [int] holds, [main] holds the handle of the first factory invocation
    at once: no retry task is started, no tick is awaited, the factory is
    invoked once and the only line printed is "database connected". *)
Theorem first_success_spawns_nothing E cfg ticks :
  0 < failureThreshold cfg <= GoInt.int_max ->
  failed (dbCircuit E 0 Background database_url) = false ->
  bootstrap E cfg ticks start
    = (Connected (db (dbCircuit E 0 Background database_url)),
       mkWorld (mkGate 0 (now E 1)) 2 1
         [Invoked 0 (dbCircuit E 0 Background database_url);
          Attempted (dbCircuit E 0 Background database_url);
          Obtained (db (dbCircuit E 0 Background database_url));
          Printed DatabaseConnected]).
Proof.
  intros HT Hok. unfold failed in Hok.
  destruct (err (dbCircuit E 0 Background database_url)) eqn:He; [discriminate|].
  rewrite bootstrap_unfold. cbv zeta. cbn [start reads calls trace].
  rewrite (attempt_below_succeeds E cfg ltac:(lia))
    by first [assumption | cbn [consecutiveFailures]; lia].
  cbn [fst snd]. rewrite He. reflexivity.
Qed.

Lemma first_success_spawns_nothing_witness :
  fst (main (E_up_at 0 Second) 7 start) = Connected (Some 0%nat).
Proof.
  unfold main.
  rewrite (first_success_spawns_nothing (E_up_at 0 Second) main_config 7).
  - reflexivity.
  - unfold GoInt.int_max. cbn. lia.
  - reflexivity.
Defined.

(** ** NewDataStore and the transaction *)

Lemma NewDataStore_cases P n ctx dbUrl :
  (exists e, NewDataStore P n ctx dbUrl = mkResult None (Some e) /\
             (snd (ParseConfig P dbUrl) = Some e \/
              snd (ParseConfig P dbUrl) = None /\
              snd (ConnectConfig P n ctx (fst (ParseConfig P dbUrl))) = Some e)) \/
  (NewDataStore P n ctx dbUrl
     = mkResult (DataStore_of (fst (ConnectConfig P n ctx (fst (ParseConfig P dbUrl)))))
                None /\
   snd (ParseConfig P dbUrl) = None /\
   snd (ConnectConfig P n ctx (fst (ParseConfig P dbUrl))) = None).
Proof.
  unfold NewDataStore.
  destruct (ParseConfig P dbUrl) as [config [e|]]; cbn [fst snd].
  - left. exists e. auto.
  - destruct (ConnectConfig P n ctx config) as [conn [e|]]; cbn [fst snd].
    + left. exists e. auto.
    + right. auto.
Qed.

Lemma NewDataStore_well_formed clock P :
  returns_handle_or_error (Env_pgx clock P).
Proof.
  intros n ctx dbUrl. cbn [Env_pgx dbCircuit].
  destruct (NewDataStore_cases P n ctx dbUrl) as [(e & -> & _) | (-> & _)];
    cbn; [discriminate|].
  intros _. unfold DataStore_of. discriminate.
Qed.

Lemma connected_handle_not_nil E cfg ticks h w' :
  returns_handle_or_error E ->
  bootstrap E cfg ticks start = (Connected h, w') -> h <> None.
Proof.
  intros Hwf Hb.
  apply bootstrap_holds_last_invocation in Hb.
  destruct Hb as (_ & -> & He & _). apply Hwf. exact He.
Qed.

(** X10. [NewDataStore] returns either no handle and the error of
    [ParseConfig] or of [ConnectConfig], unchanged, or a handle that is not
    nil and no error; when [ParseConfig] fails the result does not depend
    on what connecting would have returned. *)
Theorem NewDataStore_handle_or_error P n ctx dbUrl :
  let r := NewDataStore P n ctx dbUrl in
  (err r = None <-> db r <> None) /\
  (forall e, snd (ParseConfig P dbUrl) = Some e ->
     forall connect,
       NewDataStore (mkPgx (ParseConfig P) connect) n ctx dbUrl
         = mkResult None (Some e)) /\
  (forall e, snd (ParseConfig P dbUrl) = None ->
     snd (ConnectConfig P n ctx (fst (ParseConfig P dbUrl))) = Some e ->
     r = mkResult None (Some e)) /\
  (err r = None ->
   db r = DataStore_of (fst (ConnectConfig P n ctx (fst (ParseConfig P dbUrl))))).
Proof.
  cbv zeta. split; [|split; [|split]].
  - destruct (NewDataStore_cases P n ctx dbUrl) as [(e & -> & _) | (-> & _)]; cbn.
    + split; [discriminate | congruence].
    + split; [intros _; unfold DataStore_of; discriminate | reflexivity].
  - intros e He connect. unfold NewDataStore. cbn [ParseConfig].
    destruct (ParseConfig P dbUrl) as [config e1]. cbn [snd] in He.
    now rewrite He.
  - intros e Hp Hc. unfold NewDataStore.
    destruct (ParseConfig P dbUrl) as [config e1]. cbn [fst snd] in *.
    rewrite Hp. destruct (ConnectConfig P n ctx config) as [conn e2].
    cbn [snd] in Hc. now rewrite Hc.
  - destruct (NewDataStore_cases P n ctx dbUrl) as [(e & -> & _) | (-> & _)]; cbn.
    + discriminate.
    + reflexivity.
Qed.

(** X11. With [NewDataStore] as the circuit, as [main] is written, the
    process never dereferences a nil [roachdb] on line 100, whatever pgx,
    the clock and the transaction do; and the connection on which [Begin]
    is called is the one [ConnectConfig] returned at the last invocation
    of [NewDataStore]. *)
Theorem roachdb_never_nil clock P cfg X ticks :
  let run := program (Env_pgx clock P) cfg X ticks in
  fst (fst run) <> NilDataStore /\
  forall c, In (BeginCalled c) (snd run) ->
    c = fst (ConnectConfig P (pred (calls (snd (fst run)))) Background
               (fst (ParseConfig P database_url))).
Proof.
  cbv zeta. unfold program.
  destruct (bootstrap (Env_pgx clock P) cfg ticks start) as [out w] eqn:Hb.
  destruct out as [h | st |]; cbn [fst snd].
  - pose proof (connected_handle_not_nil _ _ _ _ _
                  (NewDataStore_well_formed clock P) Hb) as Hh.
    apply bootstrap_holds_last_invocation in Hb.
    destruct Hb as (_ & Hdb & He & _). cbn [Env_pgx dbCircuit] in Hdb, He.
    destruct (NewDataStore_cases P (pred (calls w)) Background database_url)
      as [(e & Hr & _) | (Hr & _)]; rewrite Hr in He, Hdb; cbn in He, Hdb;
      [discriminate|].
    assert (Hconn : forall k, h = Some k ->
              Conn_of k = fst (ConnectConfig P (pred (calls w)) Background
                                 (fst (ParseConfig P database_url)))).
    { intros k ->. unfold DataStore_of in Hdb. injection Hdb as ->.
      destruct (fst (ConnectConfig P _ _ _)); reflexivity. }
    unfold transaction. destruct h as [k|]; [|congruence].
    specialize (Hconn k eq_refl).
    destruct (Begin X (Conn_of k) Background) as [tx [e|]]; cbn [fst snd].
    + split; [discriminate|]. intros c [Hc | [Hc | []]]; congruence.
    + destruct tx as [t|]; cbn [fst snd].
      * destruct (Exec X t Background _); cbn [fst snd].
        -- split; [discriminate|].
           intros c [Hc | [Hc | [Hc | []]]]; congruence.
        -- destruct (Commit X t Background); cbn [fst snd];
             (split; [discriminate|]);
             intros c Hin; cbn in Hin;
             repeat (destruct Hin as [Hin | Hin]; try congruence);
             destruct Hin.
      * split; [discriminate|]. intros c [Hc | []]; congruence.
  - split; [discriminate|]. intros c [].
  - split; [discriminate|]. intros c [].
Qed.

Lemma NewDataStore_handle_or_error_witness :
  NewDataStore (mkPgx (ParseConfig pgx_unparsable) (ConnectConfig (pgx_up_at 0)))
    0 Background database_url
    = mkResult None (Some (FactoryFailure "cannot parse")).
Proof.
  destruct (NewDataStore_handle_or_error pgx_unparsable 0 Background database_url)
    as (_ & H & _).
  apply H. reflexivity.
Defined.

Lemma roachdb_never_nil_witness :
  Some 2%nat
    = fst (ConnectConfig (pgx_up_at 2)
             (pred (calls (snd (fst (program (Env_pgx seconds (pgx_up_at 2))
                                       main_config (tx_commit false) 5)))))
             Background (fst (ParseConfig (pgx_up_at 2) database_url))).
Proof.
  destruct (roachdb_never_nil seconds (pgx_up_at 2) main_config (tx_commit false) 5)
    as [_ H].
  apply H. vm_compute. left. reflexivity.
Defined.

(** The ways the transaction ends. *)
Lemma transaction_cases X roachdb :
  (roachdb = None /\ transaction X roachdb = (NilDataStore, [])) \/
  (exists h, roachdb = Some h /\
     let c := Conn_of h in
     (exists tx e, Begin X c Background = (tx, Some e) /\
        transaction X roachdb = (Returns, [BeginCalled c; Logged (CouldNotBegin e)])) \/
     (Begin X c Background = (None, None) /\
        transaction X roachdb = (NilTx, [BeginCalled c])) \/
     (exists t, Begin X c Background = (Some t, None) /\
        ((exists e, Exec X t Background "CREATE DATABASE subjectives" = Some e /\
            transaction X roachdb
              = (Returns, [BeginCalled c;
                           ExecCalled t "CREATE DATABASE subjectives";
                           Logged ErrorCreatingDatabase])) \/
         (Exec X t Background "CREATE DATABASE subjectives" = None /\
          ((exists e, Commit X t Background = Some e /\
              transaction X roachdb
                = (Fatal 1, [BeginCalled c;
                             ExecCalled t "CREATE DATABASE subjectives";
                             CommitCalled t;
                             Logged (CouldNotCommit e)])) \/
           (Commit X t Background = None /\
            transaction X roachdb
              = (Returns, [BeginCalled c;
                           ExecCalled t "CREATE DATABASE subjectives";
                           CommitCalled t]))))))).
Proof.
  unfold transaction. destruct roachdb as [h|]; [right; exists h; split; [reflexivity|] | left; auto].
  cbv zeta.
  destruct (Begin X (Conn_of h) Background) as [tx [e|]].
  - left. exists tx, e. auto.
  - right. destruct tx as [t|]; [right | left; auto].
    exists t. split; [reflexivity|].
    destruct (Exec X t Background _) as [e|].
    + left. exists e. auto.
    + right. split; [reflexivity|].
      destruct (Commit X t Background) as [e|].
      * left. exists e. auto.
      * right. auto.
Qed.

(** An exit of the connection part is the exit of line 83. *)
Lemma bootstrap_exit_shape E cfg ticks st w' :
  bootstrap E cfg ticks start = (Exited st, w') ->
  st = 1 /\
  exists dl, In (Spawned dl) (trace w') /\ aborted_past dl (trace w').
Proof.
  intros Hb.
  rewrite bootstrap_unfold in Hb. cbv zeta in Hb.
  destruct (attempt E _ _ _ _) as [r w1] eqn:Ha. cbn [fst snd] in Hb.
  destruct (err r); [|discriminate].
  destruct (retry_loop E cfg _ ticks _) as [o w2] eqn:Hl.
  cbn [fst snd] in Hb.
  assert (o = Exited st /\ w2 = w') as [-> ->]
    by (destruct o; inversion Hb; auto).
  apply retry_loop_sound in Hl. destruct Hl as (tr & Htr & Hs & _ & Hab).
  split; [exact Hs|].
  exists (now E (reads (log [Printed Connecting] w1)) + totalDeadline cfg).
  rewrite Htr. cbn [log tick trace]. split.
  - apply in_or_app. left. apply in_or_app. right. now left.
  - apply aborted_past_after. exact Hab.
Qed.

(** X12. The process ends by [log.Fatalf] in two ways only, both with
    status 1: the retry task read the clock after its deadline, and then
    no transaction was begun; or [main] held a handle, [Begin] and [Exec]
    succeeded and [Commit] failed. *)
Theorem fatal_by_deadline_or_commit E cfg X ticks st w steps :
  program E cfg X ticks = (Fatal st, w, steps) ->
  st = 1 /\
  ((steps = [] /\
    exists dl, In (Spawned dl) (trace w) /\ aborted_past dl (trace w)) \/
   (exists h t e,
      handed_over (trace w) (Some h) /\
      Begin X (Conn_of h) Background = (Some t, None) /\
      Exec X t Background "CREATE DATABASE subjectives" = None /\
      Commit X t Background = Some e /\
      steps = [BeginCalled (Conn_of h);
               ExecCalled t "CREATE DATABASE subjectives";
               CommitCalled t;
               Logged (CouldNotCommit e)])).
Proof.
  unfold program.
  destruct (bootstrap E cfg ticks start) as [out w0] eqn:Hb.
  destruct out as [h | st0 |].
  - pose proof (bootstrap_sound E cfg ticks _ _ Hb) as Hh. cbn in Hh.
    destruct (transaction_cases X h)
      as [(_ & Ht) | (k & -> & [(tx & e & _ & Ht) | [(_ & Ht) | (t & Hbeg & Hrest)]])];
      try (rewrite Ht; intros Hp; discriminate).
    cbv zeta in Hbeg.
    destruct Hrest as [(e & _ & Ht) | (Hex & [(e & Hcm & Ht) | (_ & Ht)])];
      try (rewrite Ht; intros Hp; discriminate).
    rewrite Ht. intros Hp. injection Hp as <- <- <-.
    split; [reflexivity|]. right. exists k, t, e. auto.
  - intros Hp. injection Hp as <- <- <-.
    destruct (bootstrap_exit_shape E cfg ticks _ _ Hb) as (Hs & dl & Hin & Hab).
    split; [exact Hs|]. left. split; [reflexivity|]. exists dl. auto.
  - discriminate.
Qed.

Lemma fatal_by_deadline_or_commit_witness :
  exists h t e,
    handed_over
      (trace (snd (fst (program (Env_pgx seconds (pgx_up_at 0)) main_config
                          (tx_commit true) 0))))
      (Some h) /\
    Commit (tx_commit true) t Background = Some e.
Proof.
  destruct (fatal_by_deadline_or_commit (Env_pgx seconds (pgx_up_at 0)) main_config
              (tx_commit true) 0 1
              (snd (fst (program (Env_pgx seconds (pgx_up_at 0)) main_config
                           (tx_commit true) 0)))
              (snd (program (Env_pgx seconds (pgx_up_at 0)) main_config
                      (tx_commit true) 0)))
    as (_ & [(Hs & _) | (h & t & e & Hh & _ & _ & Hc & _)]).
  - vm_compute. reflexivity.
  - vm_compute in Hs. discriminate.
  - exists h, t, e. split; assumption.
Defined.

(** X13. A failure of [Begin] or of [Exec] does not end the process: once
    [main] holds a handle, a failed [Begin] is logged and [Exec] is not
    called, a failed [Exec] is logged and [Commit] is not called, and in
    both cases [main] returns. *)
Theorem begin_or_exec_failure_returns E cfg X ticks h w :
  bootstrap E cfg ticks start = (Connected (Some h), w) ->
  (forall tx e,
     Begin X (Conn_of h) Background = (tx, Some e) ->
     program E cfg X ticks
       = (Returns, w, [BeginCalled (Conn_of h); Logged (CouldNotBegin e)])) /\
  (forall t e,
     Begin X (Conn_of h) Background = (Some t, None) ->
     Exec X t Background "CREATE DATABASE subjectives" = Some e ->
     program E cfg X ticks
       = (Returns, w,
          [BeginCalled (Conn_of h);
           ExecCalled t "CREATE DATABASE subjectives";
           Logged ErrorCreatingDatabase])).
Proof.
  intros Hb. unfold program. rewrite Hb. split.
  - intros tx e Hbeg. unfold transaction. now rewrite Hbeg.
  - intros t e Hbeg Hex. unfold transaction. now rewrite Hbeg, Hex.
Qed.

Lemma begin_or_exec_failure_returns_witness :
  fst (fst (program (Env_pgx seconds (pgx_up_at 0)) main_config tx_no_begin 0))
    = Returns.
Proof.
  destruct (begin_or_exec_failure_returns (Env_pgx seconds (pgx_up_at 0))
              main_config tx_no_begin 0 1%nat
              (snd (bootstrap (Env_pgx seconds (pgx_up_at 0)) main_config 0 start)))
    as [H _].
  - vm_compute. reflexivity.
  - rewrite (H None (FactoryFailure "begin failed") eq_refl). reflexivity.
Defined.

(** ** Two callers of one gate, whatever the factory returns *)

Section SerialFacts.

Import Race.

Variable T : Z.
Variables c1 c2 : Caller.
Variable cf0 : Z.

Ltac serial_case :=
  repeat match goal with
         | H : _ /\ _ |- _ => destruct H
         | H : False |- _ => destruct H
         end;
  subst; cbn in *;
  try discriminate;
  repeat match goal with
         | |- context [if ?b then _ else _] =>
             match type of b with bool => destruct b eqn:? end; cbn in *
         | H : context [if ?b then _ else _] |- _ =>
             match type of b with bool => destruct b eqn:? end; cbn in *
         end;
  subst; cbn in *;
  try discriminate;
  try congruence;
  try (eexists; eexists; cbn;
       repeat split; cbn; try reflexivity; try assumption; try congruence;
       try lia;
       unfold update_of in *;
       repeat match goal with
              | H : failed _ = _ |- _ => rewrite H in *
              end;
       try reflexivity; try congruence;
       first [left; congruence | right; congruence | idtac]).

Lemma move_serial who m :
  serial_inv c1 c2 cf0 m -> serial_inv c1 c2 cf0 (move T [c1; c2] who m).
Proof.
  intros (t1 & t2 & Hth & H1 & H2 & Hw & Hx & Hwr & Hrw & Hr & Hf).
  destruct m as [s ths]. cbn [threads shared] in *. subst ths.
  destruct s as [f l r w].
  destruct t1 as [p1 d1 m1 i1 o1], t2 as [p2 d2 m2 i2 o2].
  unfold thread_ok, stored in *. cbn [pc d tmp invoked out failures] in *.
  destruct who as [|[|who]]; unfold move; cbn [nth_error threads shared].
  - unfold step; cbn [pc d tmp invoked out failures last readers writer].
    destruct p1, p2; serial_case.
  - unfold step; cbn [pc d tmp invoked out failures last readers writer].
    destruct p1, p2; serial_case.
  - destruct who; cbn; eexists; eexists; repeat split; cbn; eauto.
Qed.

Lemma run_serial schedule : forall m,
  serial_inv c1 c2 cf0 m -> serial_inv c1 c2 cf0 (run T [c1; c2] schedule m).
Proof.
  induction schedule as [|who rest IH]; intros m Hm; [exact Hm|].
  cbn [run]. apply IH. apply move_serial. exact Hm.
Qed.

Lemma boot_serial g :
  consecutiveFailures g = cf0 -> serial_inv c1 c2 cf0 (boot g 2).
Proof.
  intros Hg. exists entry, entry. unfold boot. cbn.
  repeat split; auto.
Qed.

End SerialFacts.

Lemma reachable_serial T c1 c2 g schedule :
  serial_inv c1 c2 (consecutiveFailures g)
    (Race.run T [c1; c2] schedule (Race.boot g 2)).
Proof. apply run_serial. apply boot_serial. reflexivity. Qed.

(** X14. Under every schedule of two callers, whatever the factory returns
    to each, once both have returned the counter is what their updates,
    applied one after the other in one order or the other, make of the
    initial counter; a caller that was rejected leaves it alone.  No
    interleaving of their statements loses or mixes an update. *)
Theorem updates_are_serialized T c1 c2 g schedule t1 t2 :
  Race.threads (Race.run T [c1; c2] schedule (Race.boot g 2)) = [t1; t2] ->
  Race.pc t1 = Race.Returned -> Race.pc t2 = Race.Returned ->
  let final := Race.failures
                 (Race.shared (Race.run T [c1; c2] schedule (Race.boot g 2))) in
  final = effect_of c2 t2 (effect_of c1 t1 (consecutiveFailures g)) \/
  final = effect_of c1 t1 (effect_of c2 t2 (consecutiveFailures g)).
Proof.
  intros Hth Hp1 Hp2. cbv zeta.
  destruct (reachable_serial T c1 c2 g schedule)
    as (u1 & u2 & Hth' & _ & _ & _ & _ & _ & _ & _ & Hf).
  rewrite Hth in Hth'. injection Hth' as <- <-.
  unfold stored in Hf. rewrite Hp1, Hp2 in Hf. unfold effect_of.
  destruct (Race.invoked t1), (Race.invoked t2); auto.
Qed.

Lemma updates_are_serialized_witness :
  let c2 := Race.mkCaller 0 (mkResult (Some 1%nat) None) 0 in
  let m := Race.run 4 [down_caller; c2] (burst 2) (Race.boot (mkGate 3 0) 2) in
  let t1 := nth 0 (Race.threads m) Race.entry in
  let t2 := nth 1 (Race.threads m) Race.entry in
  Race.failures (Race.shared m) = effect_of c2 t2 (effect_of down_caller t1 3) \/
  Race.failures (Race.shared m) = effect_of down_caller t1 (effect_of c2 t2 3).
Proof.
  intros c2 m t1 t2.
  apply (updates_are_serialized 4 down_caller c2 (mkGate 3 0) (burst 2) t1 t2);
    vm_compute; reflexivity.
Defined.

(** X15. Under every schedule of two callers: never are both between
    [Lock] and [Unlock], never is one between [RLock] and [RUnlock] while
    the other is between [Lock] and [Unlock], and once both have returned,
    by the early return of line 52 or by the end of the closure, the lock
    is free. *)
Theorem lock_discipline T c1 c2 g schedule t1 t2 :
  Race.threads (Race.run T [c1; c2] schedule (Race.boot g 2)) = [t1; t2] ->
  let s := Race.shared (Race.run T [c1; c2] schedule (Race.boot g 2)) in
  Race.holds_write (Race.pc t1) && Race.holds_write (Race.pc t2) = false /\
  Race.holds_write (Race.pc t1) && Race.holds_read (Race.pc t2) = false /\
  Race.holds_read (Race.pc t1) && Race.holds_write (Race.pc t2) = false /\
  (Race.pc t1 = Race.Returned -> Race.pc t2 = Race.Returned ->
   Race.writer s = false /\ Race.readers s = 0%nat).
Proof.
  intros Hth. cbv zeta.
  destruct (reachable_serial T c1 c2 g schedule)
    as (u1 & u2 & Hth' & _ & _ & Hw & Hx & Hwr & Hrw & Hr & _).
  rewrite Hth in Hth'. injection Hth' as <- <-.
  repeat split; auto.
  - rewrite Hw, H, H0. reflexivity.
  - rewrite Hr, H, H0. reflexivity.
Qed.

Lemma lock_discipline_witness :
  Race.writer
    (Race.shared (Race.run 4 [down_caller; down_caller] (burst 2)
                    (Race.boot (mkGate 0 0) 2)))
    = false.
Proof.
  destruct (lock_discipline 4 down_caller down_caller (mkGate 0 0) (burst 2)
              (nth 0 (Race.threads
                        (Race.run 4 [down_caller; down_caller] (burst 2)
                           (Race.boot (mkGate 0 0) 2))) Race.entry)
              (nth 1 (Race.threads
                        (Race.run 4 [down_caller; down_caller] (burst 2)
                           (Race.boot (mkGate 0 0) 2))) Race.entry))
    as (_ & _ & _ & H).
  - vm_compute. reflexivity.
  - destruct H as [H _]; [vm_compute; reflexivity | vm_compute; reflexivity |].
    exact H.
Defined.

(** X16. Two callers never block each other for good: under every
    schedule, as long as one of them has not returned, one of them can make
    its next statement. *)
Theorem no_deadlock T c1 c2 g schedule t1 t2 :
  Race.threads (Race.run T [c1; c2] schedule (Race.boot g 2)) = [t1; t2] ->
  Race.pc t1 <> Race.Returned \/ Race.pc t2 <> Race.Returned ->
  let s := Race.shared (Race.run T [c1; c2] schedule (Race.boot g 2)) in
  Race.step T c1 t1 s <> None \/ Race.step T c2 t2 s <> None.
Proof.
  intros Hth Hlive. cbv zeta.
  destruct (reachable_serial T c1 c2 g schedule)
    as (u1 & u2 & Hth' & _ & _ & Hw & Hx & Hwr & Hrw & Hr & _).
  rewrite Hth in Hth'. injection Hth' as <- <-.
  destruct (Race.shared _) as [f l r w]. cbn [Race.writer Race.readers] in *.
  destruct t1 as [p1 d1 m1 i1 o1], t2 as [p2 d2 m2 i2 o2].
  cbn [Race.pc] in *. unfold Race.step. cbn [Race.pc Race.writer Race.readers].
  destruct p1, p2; cbn in *; subst; cbn;
    try (left; repeat match goal with
                      | |- context [if ?b then _ else _] => destruct b
                      end; discriminate);
    try (right; repeat match goal with
                       | |- context [if ?b then _ else _] => destruct b
                       end; discriminate);
    try discriminate;
    destruct Hlive as [Hl | Hl]; congruence.
Qed.

Lemma no_deadlock_witness :
  Race.step 4 down_caller
    (nth 0 (Race.threads (Race.run 4 [down_caller; down_caller] (enter_all 2)
                            (Race.boot (mkGate 0 0) 2))) Race.entry)
    (Race.shared (Race.run 4 [down_caller; down_caller] (enter_all 2)
                    (Race.boot (mkGate 0 0) 2))) <> None.
Proof.
  destruct (no_deadlock 4 down_caller down_caller (mkGate 0 0) (enter_all 2)
              (nth 0 (Race.threads
                        (Race.run 4 [down_caller; down_caller] (enter_all 2)
                           (Race.boot (mkGate 0 0) 2))) Race.entry)
              (nth 1 (Race.threads
                        (Race.run 4 [down_caller; down_caller] (enter_all 2)
                           (Race.boot (mkGate 0 0) 2))) Race.entry))
    as [H | H].
  - vm_compute. reflexivity.
  - left. vm_compute. discriminate.
  - exact H.
  - vm_compute. discriminate.
Defined.
